(** * dantil: a shallow embedding of [dantil.js] and its verified properties

    The development follows the layout of the source file: option-schema
    validation ([illFormedOpts]), output redirection
    ([redirectOutputToFile]), the console printer ([prettyPrint]), the
    profiling tables ([time], [timeEnd], [count], [countEnd],
    [countEndAll]) and the small helpers ([arraysEqual], [cleanNumber],
    [dashedToCamelCase]).

    Part I holds the definitions, Part II the theorems. *)

From Stdlib Require Import ZArith QArith Floats List String Ascii Bool Lia.
From stdpp Require Import gmap strings list.

Set Warnings "-inexact-float,-register-all".
Set Default Proof Using "Type".

(* ===================================================================== *)
(** * Part I: definitions *)
(* ===================================================================== *)

(** ** JavaScript values

    Primitives are compared by value and objects by identity, so every
    object carries the reference [ref] it lives at.  An array also carries
    its elements; of any other object only the identity and the
    constructor are observed by the code modelled here. *)
Module JS.

Definition loc := nat.

(** The value of a [constructor] property: a built-in or a user class. *)
Inductive ctor :=
| CNumber | CString | CBoolean | CArray | CObject | CFunction | CRegExp
| CClass (name : string).

Inductive value :=
| VUndefined
| VNull
| VBoolean (b : bool)
| VNumber (x : float)
| VString (s : string)
| VArray (ref : loc) (elems : list value)
| VObject (ref : loc) (c : ctor).

Definition ctor_eqb (c d : ctor) : bool :=
  match c, d with
  | CNumber, CNumber | CString, CString | CBoolean, CBoolean
  | CArray, CArray | CObject, CObject | CFunction, CFunction
  | CRegExp, CRegExp => true
  | CClass n, CClass m => String.eqb n m
  | _, _ => false
  end.

(** [a === b].  Numbers follow IEEE 754 ([NaN !== NaN], [0 === -0]);
    objects are equal when they are the same instance. *)
Definition strict_eq (a b : value) : bool :=
  match a, b with
  | VUndefined, VUndefined => true
  | VNull, VNull => true
  | VBoolean x, VBoolean y => Bool.eqb x y
  | VNumber x, VNumber y => PrimFloat.eqb x y
  | VString s, VString t => String.eqb s t
  | VArray r _, VArray r' _ => Nat.eqb r r'
  | VObject r _, VObject r' _ => Nat.eqb r r'
  | _, _ => false
  end.

(** [v.constructor]; reading a property of [undefined] or [null] raises a
    [TypeError], rendered as [None]. *)
Definition constructor (v : value) : option ctor :=
  match v with
  | VUndefined | VNull => None
  | VBoolean _ => Some CBoolean
  | VNumber _ => Some CNumber
  | VString _ => Some CString
  | VArray _ _ => Some CArray
  | VObject _ c => Some c
  end.

(** [Array.isArray(v)] *)
Definition isArray (v : value) : bool :=
  match v with VArray _ _ => true | _ => false end.

(** [!v] *)
Definition falsy (v : value) : bool :=
  match v with
  | VUndefined | VNull => true
  | VBoolean b => negb b
  | VNumber x => (PrimFloat.eqb x 0 || negb (PrimFloat.eqb x x))%bool
  | VString s => String.eqb s ""
  | VArray _ _ | VObject _ _ => false
  end.

(** [xs.indexOf(v) !== -1]: [indexOf] compares with [===]. *)
Definition includes_strict (xs : list value) (v : value) : bool :=
  existsb (fun x => strict_eq x v) xs.

(** What a [throw] carries: an [Error] built by the code, an error of a
    Node system call, or any value a callback chooses to throw. *)
Inductive exn :=
| Error (message : string)
| SystemError (code : string)
| Thrown (v : value).

(** A call either returns a value or raises. *)
Inductive result (A : Type) :=
| Return (a : A)
| Raise (e : exn).

Arguments Return {A} a.
Arguments Raise {A} e.

End JS.

(** ** Shallow array comparison *)
Module Arrays.
Import JS.

(** The [for] loop of [arraysEqual]: [a[i] !== b[i]] for [i] below
    [a.length], on two arrays of that same length. *)
Fixpoint elementsEqual (a b : list value) : bool :=
  match a, b with
  | x :: a', y :: b' => if negb (strict_eq x y) then false else elementsEqual a' b'
  | _, _ => true
  end.

(** [exports.arraysEqual].  The arguments are arrays or [undefined], as
    the source documents them.  The first two tests decide on any value;
    past them the code reads [length] and indexes, which is modelled for
    arrays only: [None] stands for a call outside that domain. *)
Definition arraysEqual (a b : value) : option bool :=
  if strict_eq a b then Some true
  else if (falsy a || falsy b)%bool then Some false
  else match a, b with
       | VArray _ xs, VArray _ ys =>
           let aLength := length xs in
           if negb (Nat.eqb aLength (length ys)) then Some false
           else Some (elementsEqual xs ys)
       | _, _ => None
       end.

End Arrays.

(** ** Console printer *)
Module Printer.
Import JS.

(** The options object handed to [util.inspect]: [depth] is [None] for
    [null] (recurse without bound); [util.inspect]'s own default is 2. *)
Record inspectOpts := { depth : option nat; colors : bool }.

Definition newline : ascii := "010"%char.
Definition escape : ascii := "027"%char.

(** [/,\n/.test(s)]: a comma immediately followed by a line feed. *)
Fixpoint testCommaNewline (s : string) : bool :=
  match s with
  | String c ((String d _) as t) =>
      if (Ascii.eqb c "," && Ascii.eqb d newline)%bool then true
      else testCommaNewline t
  | _ => false
  end.

(** The pattern the spec names: a line feed followed by a comma. *)
Fixpoint testNewlineComma (s : string) : bool :=
  match s with
  | String c ((String d _) as t) =>
      if (Ascii.eqb c newline && Ascii.eqb d ",")%bool then true
      else testNewlineComma t
  | _ => false
  end.

(** [\d] *)
Definition isDigit (c : ascii) : bool :=
  ((48 <=? nat_of_ascii c) && (nat_of_ascii c <=? 57))%nat%bool.

(** [string.replace(/\u001b\[\d\d?m/g, '')]: scanning from the left, every
    [ESC [ d m] or [ESC [ d d m] is dropped and any other character kept. *)
Fixpoint removeStyle (s : string) : string :=
  match s with
  | EmptyString => EmptyString
  | String c t =>
      let keep := String c (removeStyle t) in
      if Ascii.eqb c escape then
        match t with
        | String b (String d1 (String x u)) =>
            if (Ascii.eqb b "[" && isDigit d1)%bool then
              if Ascii.eqb x "m" then removeStyle u
              else match u with
                   | String y v =>
                       if (isDigit x && Ascii.eqb y "m")%bool then removeStyle v
                       else keep
                   | EmptyString => keep
                   end
            else keep
        | _ => keep
        end
      else keep
  end.

(** [getStylizedStringLength] *)
Definition getStylizedStringLength (s : string) : nat :=
  String.length (removeStyle s).

Section PrettyPrint.

(** [util.inspect] belongs to Node, not to this repository. *)
Variable inspect : value -> inspectOpts -> string.

(** [typeof arg === 'string' ? arg : util.inspect(arg, opts)] *)
Definition format (opts : inspectOpts) (arg : value) : string :=
  match arg with
  | VString s => s
  | _ => inspect arg opts
  end.

(** The body of the [forEach] callback of [prettyPrint], as a function of
    the lines gathered so far.  With [i > 0] a line was pushed at index 0,
    so [formattedArgs] is not empty; on an empty one the source would read
    [undefined.replace] and raise, and the model leaves the lines alone. *)
Definition printArg (opts : inspectOpts) (formattedArgs : list string)
    (i : nat) (arg : value) : list string :=
  let formattedArg := format opts arg in
  if (Nat.eqb i 0 || testCommaNewline formattedArg)%bool then
    formattedArgs ++ [formattedArg]
  else
    let prevFormattedArgIdx := (length formattedArgs - 1)%nat in
    match formattedArgs !! prevFormattedArgIdx with
    | Some prevFormattedArg =>
        if (80 <? getStylizedStringLength prevFormattedArg
                  + getStylizedStringLength formattedArg + 1)%nat
        then formattedArgs ++ [formattedArg]
        else <[prevFormattedArgIdx := (prevFormattedArg ++ " " ++ formattedArg)%string]>
               formattedArgs
    | None => formattedArgs
    end.

(** [args.forEach(function (arg, i) {...})] from index [i] on. *)
Fixpoint forEachArg (opts : inspectOpts) (formattedArgs : list string)
    (i : nat) (args : list value) : list string :=
  match args with
  | [] => formattedArgs
  | arg :: rest => forEachArg opts (printArg opts formattedArgs i arg) (S i) rest
  end.

(** [prettyPrint(args, opts)]: the lines handed to [console.log], in
    order. *)
Definition prettyPrint (args : list value) (opts : inspectOpts) : list string :=
  forEachArg opts [] 0 args.

(** [exports.log]: [prettyPrint(arguments, { colors: true })] *)
Definition log (args : list value) : list string :=
  prettyPrint args {| depth := Some 2; colors := true |}.


End PrettyPrint.
End Printer.

(** ** Case conversion *)
Module Case.

Definition isLower (c : ascii) : bool :=
  ((97 <=? nat_of_ascii c) && (nat_of_ascii c <=? 122))%nat%bool.

Definition isUpper (c : ascii) : bool :=
  ((65 <=? nat_of_ascii c) && (nat_of_ascii c <=? 90))%nat%bool.

(** [\w]: [[A-Za-z0-9_]] *)
Definition isWordChar (c : ascii) : bool :=
  (isLower c || isUpper c || Printer.isDigit c || Ascii.eqb c "_")%bool.

(** [toUpperCase] and [toLowerCase] on one character of the ASCII range,
    the only ones [\w] and [[A-Z]] match. *)
Definition toUpperCase (c : ascii) : ascii :=
  if isLower c then ascii_of_nat (nat_of_ascii c - 32) else c.

Definition toLowerCase (c : ascii) : ascii :=
  if isUpper c then ascii_of_nat (nat_of_ascii c + 32) else c.

(** [exports.dashedToCamelCase] (the README's [kebabToCamelCase]):
    [dashedString.replace(/-(\w)/g, function (match, group1) { return
    group1.toUpperCase() })]. *)
Fixpoint dashedToCamelCase (dashedString : string) : string :=
  match dashedString with
  | EmptyString => EmptyString
  | String c t =>
      match t with
      | String group1 u =>
          if (Ascii.eqb c "-" && isWordChar group1)%bool
          then String (toUpperCase group1) (dashedToCamelCase u)
          else String c (dashedToCamelCase t)
      | EmptyString => String c EmptyString
      end
  end.

(** Modelled from the spec: [camelToKebabCase] is listed by the README and
    missing from [dantil.js]; the spec gives it as the substitution
    "uppercase letter -> [-] + lowercase letter". *)
Fixpoint camelToKebabCase (camelCasedString : string) : string :=
  match camelCasedString with
  | EmptyString => EmptyString
  | String c t =>
      if isUpper c then String "-" (String (toLowerCase c) (camelToKebabCase t))
      else String c (camelToKebabCase t)
  end.

(** An identifier over the restricted alphabet: letters, digits, [_] and
    [$], not starting with a digit. *)
Definition isIdentifierChar (c : ascii) : bool :=
  (isWordChar c || Ascii.eqb c "$")%bool.

Fixpoint allChars (p : ascii -> bool) (s : string) : bool :=
  match s with
  | EmptyString => true
  | String c t => (p c && allChars p t)%bool
  end.

Definition isIdentifier (s : string) : bool :=
  match s with
  | EmptyString => false
  | String c _ => (negb (Printer.isDigit c) && allChars isIdentifierChar s)%bool
  end.

End Case.

(** ** Numbers: [toFixed], [Number] and [cleanNumber]

    A JavaScript number is a binary64 float.  [toFixed] and [Number] are
    built-ins; they are modelled after ECMA-262 with exact arithmetic on
    the rational a finite float denotes. *)
Module Numbers.

Local Open Scope Z_scope.

(** What a float denotes: its sign and, when finite, the exact magnitude
    as a fraction [num / den]. *)
Inductive decoded :=
| DNaN
| DInfinity (neg : bool)
| DFinite (neg : bool) (num den : Z).

Definition decode (x : float) : decoded :=
  match Prim2SF x with
  | S754_nan => DNaN
  | S754_infinity s => DInfinity s
  | S754_zero s => DFinite s 0 1
  | S754_finite s m e =>
      if 0 <=? e then DFinite s (Z.pos m * 2 ^ e) 1
      else DFinite s (Z.pos m) (2 ^ (- e))
  end.

Definition digitChar (d : Z) : ascii := ascii_of_nat (48 + Z.to_nat d).

(** The last [width] decimal digits of [n], most significant first. *)
Fixpoint fixedDigits (width : nat) (n : Z) : string :=
  match width with
  | O => EmptyString
  | S w => String (digitChar ((n / 10 ^ Z.of_nat w) mod 10)) (fixedDigits w n)
  end.

Fixpoint dropLeadingZeros (s : string) : string :=
  match s with
  | String c ((String _ _) as t) => if Ascii.eqb c "0" then dropLeadingZeros t else s
  | _ => s
  end.

(** The decimal representation of [n >= 0]: no leading zero, ["0"] for 0.
    A number has no more decimal digits than bits. *)
Definition decimalDigits (n : Z) : string :=
  dropLeadingZeros (fixedDigits (S (Z.to_nat (Z.log2 n))) n).

(** The integer [n] for which [n / 10^f - num/den] is as close to zero as
    possible, the larger one of two: [floor (num/den * 10^f + 1/2)]. *)
Definition nearestScaled (f : nat) (num den : Z) : Z :=
  (2 * num * 10 ^ Z.of_nat f + den) / (2 * den).

(** [Number.prototype.toFixed(f)] on a finite magnitude [num / den] below
    [10^21], with [f > 0]: the digits of [n] with a point before the last
    [f] of them, zero-padded on the left to leave one digit before it. *)
Definition toFixedDigits (f : nat) (neg : bool) (num den : Z) : string :=
  let n := nearestScaled f num den in
  let a := decimalDigits (n / 10 ^ Z.of_nat f) in
  let b := fixedDigits f n in
  let s := if (neg && negb (num =? 0))%bool then "-"%string else ""%string in
  (s ++ a ++ "." ++ b)%string.

(** A plain decimal literal, as [toFixed] prints it (an optional minus,
    digits, an optional point and digits), read as sign, digits and
    number of digits after the point. *)
Fixpoint readDigits (s : string) (acc : Z) (scale : option nat) : option (Z * nat) :=
  match s with
  | EmptyString => Some (acc, default O scale)
  | String c t =>
      if Printer.isDigit c then
        readDigits t (10 * acc + (Z.of_nat (nat_of_ascii c) - 48)) (S <$> scale)
      else if Ascii.eqb c "." then
        match scale with
        | None => readDigits t acc (Some O)
        | Some _ => None
        end
      else None
  end.

Definition readDecimal (s : string) : option (bool * Z * nat) :=
  match s with
  | String c t =>
      if Ascii.eqb c "-" then (fun r => (true, r.1, r.2)) <$> readDigits t 0 None
      else (fun r => (false, r.1, r.2)) <$> readDigits s 0 None
  | EmptyString => None
  end.

(** [num / den / 2^e] as a fraction of integers. *)
Definition scaled (num den e : Z) : Z * Z :=
  if 0 <=? e then (num, den * 2 ^ e) else (num * 2 ^ (- e), den).

(** The integer nearest to [n / d], the even one of two. *)
Definition nearestEven (n d : Z) : Z :=
  let q := n / d in
  let r := n mod d in
  if d <? 2 * r then q + 1
  else if 2 * r =? d then (if Z.even q then q else q + 1)
  else q.

(** The exponent of the last place of a binary64 float at [num / den]:
    the one that leaves 53 bits before the point, and no less than that
    of the subnormal numbers. *)
Definition binaryExponent (num den : Z) : Z :=
  let e0 := Z.log2 num - Z.log2 den - 53 in
  let e1 := if 2 ^ 53 <=? (scaled num den e0).1 / (scaled num den e0).2
            then e0 + 1 else e0 in
  Z.max e1 (-1074).

(** The binary64 float nearest to [num / den] ([num >= 0], [den > 0]),
    ties to the even significand: the rounding [Number] applies to the
    mathematical value of a literal.  A significand of up to [2^53] times
    a power of two is a float, so [SF2Prim] loses nothing. *)
Definition roundToDouble (neg : bool) (num den : Z) : float :=
  let signedZero := if neg then neg_zero else PrimFloat.zero in
  if num =? 0 then signedZero
  else
    let e := binaryExponent num den in
    let m := nearestEven (scaled num den e).1 (scaled num den e).2 in
    if m =? 0 then signedZero
    else if 2 ^ 2098 <=? m * 2 ^ (e + 1074)
    then (if neg then neg_infinity else infinity)
    else SF2Prim (S754_finite neg (Z.to_pos m) e).

(** [Number(s)] on a plain decimal literal: the float nearest to its
    value.  The other literal forms of the language (exponents,
    hexadecimal digits, surrounding blanks) are not modelled and fall
    under [NaN] here, as strings that are no literal do. *)
Definition Number (s : string) : float :=
  match readDecimal s with
  | Some (neg, digits, scale) => roundToDouble neg digits (10 ^ Z.of_nat scale)
  | None => nan
  end.

(** [number.toFixed(13)] where it prints digits: on a finite number below
    [10^21] in magnitude. *)
Definition toFixed13 (number : float) : option string :=
  match decode number with
  | DFinite neg num den =>
      if num <? 10 ^ 21 * den then Some (toFixedDigits 13 neg num den) else None
  | _ => None
  end.

(** [exports.cleanNumber]: [Number(number.toFixed(13))].  For [NaN], the
    infinities and magnitudes from [10^21] on, [toFixed] returns the
    number's own string form, which [Number] reads back as the same
    number. *)
Definition cleanNumber (number : float) : float :=
  match toFixed13 number with
  | Some s => Number s
  | None => number
  end.

End Numbers.

(** ** Options validator *)
Module Opts.
Import JS.

(** A plain object: its own enumerable properties in [for ... in] order,
    each key once. *)
Definition object (A : Type) := list (string * A).

(** [o[prop]] *)
Fixpoint get {A : Type} (o : object A) (prop : string) : option A :=
  match o with
  | [] => None
  | (k, v) :: rest => if String.eqb k prop then Some v else get rest prop
  end.

(** [o.hasOwnProperty(prop)] *)
Definition hasOwnProperty {A : Type} (o : object A) (prop : string) : bool :=
  match get o prop with Some _ => true | None => false end.

(** What a property is checked against: a constructor or an array of
    accepted values. *)
Inductive propType :=
| TCtor (c : ctor)
| TValues (accepted : list value).

(** A schema entry: a bare constructor ([num: Number]), an array of
    accepted values ([val: [ 'red', 'yellow', 'blue' ]]) or a descriptor
    ([{ type: Array, arrayType: String, optional: true }]). *)
Inductive rule :=
| RType (c : ctor)
| RValues (accepted : list value)
| RDesc (type : propType) (optional : bool) (arrayType : option ctor).

(** [val.optional]: [undefined] on a constructor or an array. *)
Definition optional (val : rule) : bool :=
  match val with RDesc _ o _ => o | _ => false end.

(** [schemaVal.type || schemaVal] *)
Definition schemaPropType (schemaVal : rule) : propType :=
  match schemaVal with
  | RType c => TCtor c
  | RValues vs => TValues vs
  | RDesc t _ _ => t
  end.

(** [schemaVal.arrayType] *)
Definition arrayType (schemaVal : rule) : option ctor :=
  match schemaVal with RDesc _ _ a => a | _ => None end.

(** The diagnostics, named as the spec names them; each stands for the
    message the source logs with [logErrorAndLine] or [logError]. *)
Inductive violation :=
| MissingProperty (prop : string)
| UnrecognizedProperty (prop : string)
| UndefinedValue (prop : string) (optsVal : value)
| UnrecognizedValue (prop : string) (optsVal : value) (accepted : list value)
| WrongType (prop : string) (expected : ctor) (optsVal : value)
| WrongElementType (prop : string) (expected : ctor) (optsVal : value).

(** How a check ends: nothing to report, one diagnostic logged and
    [return true], or a [TypeError] raised by reading [constructor] of
    [null]. *)
Inductive outcome :=
| Pass
| Reported (v : violation)
| TypeError.

(** First loop: [for (var prop in schema)]. *)
Fixpoint checkMissing (schema : object rule) (opts : object value) : outcome :=
  match schema with
  | [] => Pass
  | (prop, val) :: rest =>
      if (negb (optional val) && negb (hasOwnProperty opts prop))%bool
      then Reported (MissingProperty prop)
      else checkMissing rest opts
  end.

(** [optsVal === undefined || (Array.isArray(optsVal) &&
    (optsVal.length === 0 || optsVal.indexOf(undefined) !== -1))] *)
Definition undefinedValue (optsVal : value) : bool :=
  (strict_eq optsVal VUndefined
   || match optsVal with
      | VArray _ elems =>
          Nat.eqb (length elems) 0 || includes_strict elems VUndefined
      | _ => false
      end)%bool.

(** [optsVal.every(function (el) { return el.constructor ===
    schemaVal.arrayType })]: stops at the first element of another
    constructor; [None] when an element is [null]. *)
Fixpoint everyConstructor (expected : ctor) (elems : list value) : option bool :=
  match elems with
  | [] => Some true
  | el :: rest =>
      match constructor el with
      | None => None
      | Some c => if ctor_eqb c expected then everyConstructor expected rest
                  else Some false
      end
  end.

(** The body of the second loop for one property of [opts]. *)
Definition checkProp (schema : object rule) (prop : string) (optsVal : value)
    : outcome :=
  match get schema prop with
  | None => Reported (UnrecognizedProperty prop)
  | Some schemaVal =>
      if undefinedValue optsVal then Reported (UndefinedValue prop optsVal)
      else
        match schemaPropType schemaVal with
        | TValues accepted =>
            if negb (includes_strict accepted optsVal)
            then Reported (UnrecognizedValue prop optsVal accepted)
            else Pass
        | TCtor expected =>
            match constructor optsVal with
            | None => TypeError
            | Some c =>
                if negb (ctor_eqb c expected)
                then Reported (WrongType prop expected optsVal)
                else
                  match optsVal, arrayType schemaVal with
                  | VArray _ elems, Some elType =>
                      match everyConstructor elType elems with
                      | None => TypeError
                      | Some true => Pass
                      | Some false => Reported (WrongElementType prop elType optsVal)
                      end
                  | _, _ => Pass
                  end
            end
        end
  end.

(** Second loop: [for (var prop in opts)]. *)
Fixpoint checkOpts (schema : object rule) (opts : object value) : outcome :=
  match opts with
  | [] => Pass
  | (prop, optsVal) :: rest =>
      match checkProp schema prop optsVal with
      | Pass => checkOpts schema rest
      | stop => stop
      end
  end.

(** The two loops of [exports.illFormedOpts]. *)
Definition run (schema : object rule) (opts : object value) : outcome :=
  match checkMissing schema opts with
  | Pass => checkOpts schema opts
  | stop => stop
  end.

(** [exports.illFormedOpts]: the returned boolean, [None] when the call
    raises instead of returning. *)
Definition illFormedOpts (schema : object rule) (opts : object value)
    : option bool :=
  match run schema opts with
  | Pass => Some false
  | Reported _ => Some true
  | TypeError => None
  end.

(** The diagnostics one call logs. *)
Definition diagnostics (schema : object rule) (opts : object value)
    : list violation :=
  match run schema opts with
  | Reported v => [v]
  | _ => []
  end.

(** *** The properties the spec states, in its words *)

(** "every required (non-optional) key of S is present in C" *)
Definition requiredPresent (schema : object rule) (opts : object value) : Prop :=
  forall prop val, In (prop, val) schema -> optional val = false ->
                   hasOwnProperty opts prop = true.

(** "every key of C is declared in S" *)
Definition keysDeclared (schema : object rule) (opts : object value) : Prop :=
  forall prop optsVal, In (prop, optsVal) opts -> hasOwnProperty schema prop = true.

(** "the absent sentinel (undefined) nor a sequence containing it" *)
Definition absentOrContainsAbsent (optsVal : value) : Prop :=
  optsVal = VUndefined \/
  exists ref elems, optsVal = VArray ref elems /\ In VUndefined elems.

Definition noAbsentValue (opts : object value) : Prop :=
  forall prop optsVal, In (prop, optsVal) opts -> ~ absentOrContainsAbsent optsVal.

(** The same with the empty sequence, which step 3 of the spec's
    algorithm counts too. *)
Definition absentOrEmptyOrContainsAbsent (optsVal : value) : Prop :=
  absentOrContainsAbsent optsVal \/ exists ref, optsVal = VArray ref [].

Definition noAbsentOrEmptyValue (opts : object value) : Prop :=
  forall prop optsVal, In (prop, optsVal) opts ->
                       ~ absentOrEmptyOrContainsAbsent optsVal.

(** "matches its declared type/element-type or permitted-value set":
    membership by [===] in a set of accepted values; otherwise the
    value's constructor is the declared one and, for an array under a
    declared element type, so is every element's. *)
Definition matchesRule (schemaVal : rule) (optsVal : value) : Prop :=
  match schemaPropType schemaVal with
  | TValues accepted => exists x, In x accepted /\ strict_eq x optsVal = true
  | TCtor expected =>
      constructor optsVal = Some expected /\
      forall ref elems elType,
        optsVal = VArray ref elems -> arrayType schemaVal = Some elType ->
        forall el, In el elems -> constructor el = Some elType
  end.

Definition valuesMatch (schema : object rule) (opts : object value) : Prop :=
  forall prop optsVal schemaVal,
    In (prop, optsVal) opts -> get schema prop = Some schemaVal ->
    matchesRule schemaVal optsVal.

(** *** The order of checks as the spec lists it

    Steps 1 and 2 each run over all keys before the next step starts;
    steps 3 to 6 then run key by key.  [listedOrder] is the diagnosis such
    a pass would make. *)
Fixpoint checkUnrecognized (schema : object rule) (opts : object value) : outcome :=
  match opts with
  | [] => Pass
  | (prop, _) :: rest =>
      if negb (hasOwnProperty schema prop) then Reported (UnrecognizedProperty prop)
      else checkUnrecognized schema rest
  end.

Definition listedOrder (schema : object rule) (opts : object value) : outcome :=
  match checkMissing schema opts with
  | Pass =>
      match checkUnrecognized schema opts with
      | Pass => checkOpts schema opts
      | stop => stop
      end
  | stop => stop
  end.

End Opts.

(** ** Output redirection *)
Module Redirect.
Import JS.

(** The functions [process.stdout.write] may hold: one that was there
    before the call (the console's own, or whatever a caller installed),
    or the closure [redirectOutputToFile] installs, which forwards to the
    stream opened on [path]. *)
Inductive writer :=
| Installed (id : nat)
| ToStream (path : string).

(** The calls of Node's [fs] module the function makes.  [writeFileSync]
    creates or truncates the file and raises when it cannot (the path is a
    directory); [createWriteStream] opens lazily and raises nothing at the
    call; [realpathSync] raises when the path does not resolve. *)
Class NodeFs (FS : Type) := {
  writeFileSync : string -> FS -> result FS;
  createWriteStream : string -> FS -> FS;
  realpathSync : string -> FS -> result string
}.

Section WithFs.

Context {FS : Type} `{NodeFs FS}.
Variable inspect : value -> Printer.inspectOpts -> string.

(** The part of the process the function touches: [process.stdout.write],
    every line [console.log] wrote together with the write function that
    received it, the file system, and the home directory of
    [process.env]. *)
Record world := {
  stdout_write : writer;
  written : list (writer * string);
  fs : FS;
  home : string
}.

Definition setWrite (f : writer) (w : world) : world :=
  {| stdout_write := f; written := written w; fs := fs w; home := home w |}.

Definition setFs (s : FS) (w : world) : world :=
  {| stdout_write := stdout_write w; written := written w; fs := s; home := home w |}.

(** [console.log(line)] for each line: handed to the current
    [process.stdout.write]. *)
Definition consoleLog (lines : list string) (w : world) : world :=
  {| stdout_write := stdout_write w;
     written := written w ++ map (fun line => (stdout_write w, line)) lines;
     fs := fs w; home := home w |}.

(** [exports.expandHomeDir]: [path.replace(/^~/, process.env[...])] *)
Definition expandHomeDir (homeDir path : string) : string :=
  match path with
  | String c rest => if Ascii.eqb c "~" then (homeDir ++ rest)%string else path
  | EmptyString => path
  end.

(** A callback runs on the world and returns or raises. *)
Definition callbackT := world -> result value * world.

(** [exports.redirectOutputToFile] *)
Definition redirectOutputToFile (path : string) (callback : callbackT)
    (w : world) : result value * world :=
  let path := expandHomeDir (home w) path in
  match writeFileSync path (fs w) with
  | Raise e => (Raise e, w)
  | Return created =>
      let w := setFs (createWriteStream path created) w in
      let oldWrite := stdout_write w in
      let w := setWrite (ToStream path) w in
      match callback w with
      | (Return returnVal, w) =>
          let w := setWrite oldWrite w in
          match realpathSync path (fs w) with
          | Return real =>
              let w := consoleLog
                         (Printer.log inspect [VString "Output saved to:"; VString real]) w in
              (Return returnVal, w)
          | Raise e =>
              let w := setWrite oldWrite w in
              (Raise e, w)
          end
      | (Raise e, w) =>
          let w := setWrite oldWrite w in
          (Raise e, w)
      end
  end.

End WithFs.

(** A small file system to run the function on: the paths of the regular
    files and of the directories that exist, all absolute. *)
Record files := { regular : list string; directories : list string }.

Definition exists_in (paths : list string) (path : string) : bool :=
  existsb (String.eqb path) paths.

#[global] Instance files_fs : NodeFs files := {
  writeFileSync path s :=
    if exists_in (directories s) path then Raise (SystemError "EISDIR")
    else Return {| regular := if exists_in (regular s) path then regular s
                              else path :: regular s;
                   directories := directories s |};
  createWriteStream path s := s;
  realpathSync path s :=
    if (exists_in (regular s) path || exists_in (directories s) path)%bool
    then Return path
    else Raise (SystemError "ENOENT")
}.

(** [fs.unlinkSync(path)] on that file system. *)
Definition unlinkSync (path : string) (s : files) : result files :=
  if exists_in (regular s) path
  then Return {| regular := List.filter (fun p => negb (String.eqb path p)) (regular s);
                 directories := directories s |}
  else Raise (SystemError "ENOENT").

End Redirect.

(** ** Profiling timers and counters *)
Module Profiling.
Import JS.

Local Open Scope Z_scope.

(** [[seconds, nanoseconds]], as [process.hrtime] returns it. *)
Definition hrtime := (Z * Z)%type.

(** [process.hrtime()] when the monotonic clock reads [now] nanoseconds. *)
Definition hrtimeNow (now : Z) : hrtime := (now / 10 ^ 9, now mod 10 ^ 9).

(** [process.hrtime(time)]: the time elapsed since the earlier reading
    [time], the nanoseconds borrowed from the seconds when negative. *)
Definition hrtimeSince (now : Z) (time : hrtime) : hrtime :=
  let sec := (hrtimeNow now).1 - time.1 in
  let nsec := (hrtimeNow now).2 - time.2 in
  if nsec <? 0 then (sec - 1, nsec + 10 ^ 9) else (sec, nsec).

(** [durationTuple[0] * 1e3 + durationTuple[1] / 1e6]: milliseconds, as
    the exact rational the expression denotes. *)
Definition milliseconds (durationTuple : hrtime) : Q :=
  (inject_Z durationTuple.1 * 1000 + inject_Z durationTuple.2 / 1000000)%Q.

(** [duration.toFixed(3)], on the durations a process lives to see (below
    [10^21] milliseconds). *)
Definition toFixed3 (duration : Q) : string :=
  Numbers.toFixedDigits 3 (Qnum duration <? 0) (Z.abs (Qnum duration))
    (Z.pos (Qden duration)).

(** An ES6 [Map] from labels to numbers, in insertion order: [set] keeps
    the place of a key it already holds and appends a new one. *)
Definition Map := list (string * Z).

Fixpoint Map_get (m : Map) (label : string) : option Z :=
  match m with
  | [] => None
  | (k, v) :: rest => if String.eqb k label then Some v else Map_get rest label
  end.

Fixpoint Map_set (m : Map) (label : string) (val : Z) : Map :=
  match m with
  | [] => [(label, val)]
  | (k, v) :: rest =>
      if String.eqb k label then (k, val) :: rest
      else (k, v) :: Map_set rest label val
  end.

Definition Map_delete (m : Map) (label : string) : Map :=
  List.filter (fun kv => negb (String.eqb kv.1 label)) m.

(** [_counts.get(label) || 0] *)
Definition orZero (o : option Z) : Z :=
  match o with
  | Some v => if v =? 0 then 0 else v
  | None => 0
  end.

(** A count as the number handed to the printer. *)
Definition number (n : Z) : value :=
  VNumber (Numbers.roundToDouble (n <? 0) (Z.abs n) 1).

Section WithInspect.

Variable inspect : value -> Printer.inspectOpts -> string.

(** The module's state: the two tables and the lines printed so far.
    [_times] is a [Map] too; nothing reads it in order. *)
Record state := {
  _times : gmap string hrtime;
  _counts : Map;
  console : list string
}.

Definition initial : state :=
  {| _times := ∅; _counts := []; console := [] |}.

(** [exports.log(...)], each line to the console. *)
Definition log (args : list value) (st : state) : state :=
  {| _times := _times st; _counts := _counts st;
     console := console st ++ Printer.log inspect args |}.

(** [exports.time]: [_times.set(label, process.hrtime())] *)
Definition time (label : string) (now : Z) (st : state) : state :=
  {| _times := <[label := hrtimeNow now]> (_times st);
     _counts := _counts st; console := console st |}.

(** [exports.timeEnd].  An [hrtime] array is truthy, so [!time] holds
    exactly when [get] found nothing.  [new Error('No such label:',
    label)] keeps its first argument as the message. *)
Definition timeEnd (label : string) (now : Z) (st : state) : result unit * state :=
  match _times st !! label with
  | None => (Raise (Error "No such label:"), st)
  | Some time =>
      let durationTuple := hrtimeSince now time in
      let duration := milliseconds durationTuple in
      (Return tt,
       log [VString (label ++ ":"); VString (toFixed3 duration ++ "ms")] st)
  end.

(** [exports.count].  Counts stay far below [2^53], where [val + 1] is
    exact. *)
Definition count (label : string) (st : state) : state :=
  let val := orZero (Map_get (_counts st) label) in
  {| _times := _times st;
     _counts := Map_set (_counts st) label (val + 1);
     console := console st |}.

(** [exports.countEnd] *)
Definition countEnd (label : string) (st : state) : state :=
  let count := orZero (Map_get (_counts st) label) in
  let st := log [VString (label ++ ":"); number count] st in
  {| _times := _times st;
     _counts := Map_delete (_counts st) label;
     console := console st |}.

(** [_counts.forEach(function (count, label) { exports.log(label + ':',
    count) })] *)
Fixpoint logCounts (m : Map) (st : state) : state :=
  match m with
  | [] => st
  | (label, count) :: rest =>
      logCounts rest (log [VString (label ++ ":"); number count] st)
  end.

(** [exports.countEndAll] *)
Definition countEndAll (st : state) : state :=
  let st := logCounts (_counts st) st in
  {| _times := _times st; _counts := []; console := console st |}.

(** The calls a program makes on the module, with the clock reading at
    each timer call. *)
Inductive call :=
| Time (label : string) (now : Z)
| TimeEnd (label : string) (now : Z)
| Count (label : string)
| CountEnd (label : string)
| CountEndAll.

(** One call; a [timeEnd] that raises leaves the state as it was. *)
Definition step (st : state) (c : call) : state :=
  match c with
  | Time label now => time label now st
  | TimeEnd label now => (timeEnd label now st).2
  | Count label => count label st
  | CountEnd label => countEnd label st
  | CountEndAll => countEndAll st
  end.

Definition run (calls : list call) (st : state) : state :=
  fold_left step calls st.

End WithInspect.




(** The loop of the source's example: [count('even')] on the even [i]
    below 100, [count('odd')] on the odd ones, and [count('never
    reached')] on none. *)
Definition evenOddLoop : list call :=
  flat_map (fun i : nat => if Nat.even i then [Count "even"] else [Count "odd"])
    (seq 0 100).

End Profiling.

(** ** String methods of the language used by the stack helpers *)
Module Text.

Local Open Scope Z_scope.

(** [s.indexOf(sub) !== -1] *)
Fixpoint includes (s sub : string) : bool :=
  if String.prefix sub s then true
  else match s with
       | EmptyString => false
       | String _ t => includes t sub
       end.

(** [s.indexOf(c)] for one character; [None] stands for [-1]. *)
Fixpoint indexOf (c : ascii) (s : string) : option nat :=
  match s with
  | EmptyString => None
  | String d t => if Ascii.eqb d c then Some O else S <$> indexOf c t
  end.

(** [s.lastIndexOf(c)] *)
Fixpoint lastIndexOf (c : ascii) (s : string) : option nat :=
  match s with
  | EmptyString => None
  | String d t =>
      match lastIndexOf c t with
      | Some i => Some (S i)
      | None => if Ascii.eqb d c then Some O else None
      end
  end.

(** The number an index search returns. *)
Definition position (found : option nat) : Z :=
  match found with
  | Some i => Z.of_nat i
  | None => -1
  end.

(** An argument of [slice] brought into [0 .. len]: a negative one counts
    from the end. *)
Definition clampIndex (len i : Z) : Z :=
  if i <? 0 then Z.max (len + i) 0 else Z.min i len.

(** [s.slice(start, end)]; [end] is [None] when left out. *)
Definition slice (s : string) (start : Z) (end_ : option Z) : string :=
  let len := Z.of_nat (String.length s) in
  let from := clampIndex len start in
  let to := match end_ with Some e => clampIndex len e | None => len end in
  String.substring (Z.to_nat from) (Z.to_nat (to - from)) s.

(** [s.split('\n')] *)
Fixpoint splitLines (s : string) : list string :=
  match s with
  | EmptyString => [EmptyString]
  | String c t =>
      if Ascii.eqb c Printer.newline then EmptyString :: splitLines t
      else match splitLines t with
           | first :: rest => String c first :: rest
           | [] => [String c EmptyString]
           end
  end.


(** [s.replace(/[()]/g, '')] *)
Fixpoint removeParens (s : string) : string :=
  match s with
  | EmptyString => EmptyString
  | String c t =>
      if (Ascii.eqb c "(" || Ascii.eqb c ")")%bool then removeParens t
      else String c (removeParens t)
  end.

Fixpoint dropChars (n : nat) (s : string) : string :=
  match n, s with
  | S n', String _ t => dropChars n' t
  | _, _ => s
  end.

(** [s.replace(pattern, replacement)] with a string pattern: the first
    occurrence only.  The replacement is taken as it is (it holds no
    [$]). *)
Fixpoint replaceFirst (s pattern replacement : string) : string :=
  if String.prefix pattern s
  then (replacement ++ dropChars (String.length pattern) s)%string
  else match s with
       | EmptyString => EmptyString
       | String c t => String c (replaceFirst t pattern replacement)
       end.

(** Strings joined by single spaces. *)
Fixpoint joinWords (words : list string) : string :=
  match words with
  | [] => EmptyString
  | [word] => word
  | word :: rest => (word ++ String " " (joinWords rest))%string
  end.

(** [!s] on a string *)
Definition isEmpty (s : string) : bool :=
  match s with EmptyString => true | _ => false end.

End Text.

(** ** Stack inspection, labelled printing and the [try] wrapper *)
Module Stack.
Import JS Text.

Local Open Scope Z_scope.

(** [/\//.test(line)] *)
Definition hasPath (line : string) : bool := includes line "/".

(** [line.replace(/[()]/g, '').slice(line.lastIndexOf(' ') + 1)]: the
    index is found in the line as it is and applied to the line without
    its parentheses. *)
Definition location (line : string) : string :=
  slice (removeParens line) (position (lastIndexOf " " line) + 1) None.

(** [line.slice(line.indexOf('/') + 1, line.indexOf(':'))] *)
Definition callingFileNameOf (line : string) : string :=
  slice line (position (indexOf "/" line) + 1) (Some (position (indexOf ":" line))).

(** A frame the loop passes over: it names no path, or it lies in the
    file of [getLine] itself. *)
Definition passedOver (filename line : string) : bool :=
  (negb (hasPath line) || includes line filename)%bool.

(** The loop of [getLine] over the frames left, with the file name
    recorded so far ([None] for [undefined]). *)
Fixpoint scanStack (filename : string) (getCallingLine : bool)
    (callingFileName : option string) (stack : list string) : option string :=
  match stack with
  | [] => None
  | line :: rest =>
      if negb (hasPath line) then
        scanStack filename getCallingLine callingFileName rest
      else if includes line filename then
        scanStack filename getCallingLine callingFileName rest
      else if (getCallingLine
               || match callingFileName with
                  | Some name => negb (isEmpty name) && negb (includes line name)
                  | None => false
                  end)%bool
      then Some (location line)
      else
        scanStack filename getCallingLine (Some (callingFileNameOf line)) rest
  end.

(** [exports.getLine], given [__filename] and the text of [Error().stack]
    at the call; [None] is the [undefined] the function ends with when no
    frame is found. *)
Definition getLine (filename stack : string) (getCallingLine : bool)
    : option string :=
  scanStack filename getCallingLine None (drop 3 (splitLines stack)).

(** [s[s.length - 1]]; [None] on the empty string. *)
Fixpoint lastChar (s : string) : option ascii :=
  match s with
  | EmptyString => None
  | String c EmptyString => Some c
  | String _ t => lastChar t
  end.

(** What a callback may throw: an object with [name], [message] and
    [stack] (an [Error]; an empty [stack] stands for a missing one),
    [self] being the object as a value, or any other value. *)
Inductive thrown :=
| ErrorObject (self : value) (name message stack : string)
| Value (v : value).

(** How the callback ends. *)
Inductive attempt :=
| Returns (v : value)
| Throws (e : thrown).

(** How [tryCatchWrapper] ends: with a value ([undefined] after a caught
    error), with the error thrown again, or with the [TypeError] of
    reading [stack] off [undefined] or [null]. *)
Inductive wrapped :=
| Returned (v : value)
| Rethrown (e : thrown)
| RaisedTypeError.

Section Printing.

Variable inspect : value -> Printer.inspectOpts -> string.

(** [colors[color](text)] of the [colors] package. *)
Variable colors : string -> string -> string.

(** [printWithColoredLabel] *)
Definition printWithColoredLabel (label color : string) (args : list value)
    : list string :=
  let label :=
    match lastChar label with
    | Some c => if Ascii.eqb c ":" then slice label 0 (Some (-1)) else label
    | None => label
    end in
  Printer.log inspect ([VString (colors color label ++ ":")] ++ args).

(** [exports.logError] and [exports.logWarning] *)
Definition logError (args : list value) : list string :=
  printWithColoredLabel "Error" "red" args.

Definition logWarning (args : list value) : list string :=
  printWithColoredLabel "Warning" "yellow" args.

(** The [forEach] over the frames of [e.stack] in [tryCatchWrapper].
    [message] is the last line of [e.message] until a frame holds it, and
    [null] from then on; [indexOf(null)] searches for the text "null". *)
Fixpoint printStack (name fullMessage message : string) (frames : list string)
    : list string :=
  match frames with
  | [] => []
  | stackFrame :: rest =>
      if includes fullMessage stackFrame then
        Printer.log inspect [VString stackFrame]
        ++ printStack name fullMessage message rest
      else if includes stackFrame message then
        Printer.log inspect
          [VString (replaceFirst stackFrame name (colors "red" name))]
        ++ printStack name fullMessage "null" rest
      else
        Printer.log inspect [VString (removeParens stackFrame)]
        ++ printStack name fullMessage message rest
  end.

(** [exports.tryCatchWrapper], on the way the callback ends: the result
    and the lines printed. *)
Definition tryCatchWrapper (callback : attempt) (rethrow : bool)
    : wrapped * list string :=
  match callback with
  | Returns v => (Returned v, [])
  | Throws e =>
      let blank := [EmptyString] in
      let finish lines := (if rethrow then Rethrown e else Returned VUndefined, lines) in
      match e with
      | Value VUndefined | Value VNull => (RaisedTypeError, blank)
      | Value v => finish (blank ++ Printer.log inspect [v])
      | ErrorObject self name message stack =>
          if isEmpty stack then
            finish (blank ++ Printer.log inspect [self])
          else
            let last := List.last (splitLines message) EmptyString in
            finish (blank ++ printStack name message last (splitLines stack))
      end
  end.

End Printing.
End Stack.

(** ** The module cache *)
Module ModuleCache.
Import JS Redirect.

Section WithFs.

Context {FS : Type} `{NodeFs FS}.

(** What [require.cache] holds for a path: the loaded module. *)
Variable loaded : Type.

(** [exports.deleteModuleCache]: the [forEach] over the paths, on
    [require.cache] as a map from resolved paths.  [realpathSync] raises
    on a path that does not resolve, which ends the loop there. *)
Fixpoint deleteModuleCache (paths : list string) (s : FS)
    (cache : gmap string loaded) : result unit * gmap string loaded :=
  match paths with
  | [] => (Return tt, cache)
  | path :: rest =>
      match realpathSync path s with
      | Return real => deleteModuleCache rest s (delete real cache)
      | Raise e => (Raise e, cache)
      end
  end.

End WithFs.
End ModuleCache.

(** ** Strings in which every dash announces a word *)
Module Dashed.
Import Case.

(** Every [-] is followed by a character of [\w]: the strings on which
    the pattern [-(\w)] finds every dash. *)
Fixpoint dashesBeforeWords (s : string) : bool :=
  match s with
  | EmptyString => true
  | String c t =>
      ((if Ascii.eqb c "-"
        then match t with
             | String group1 _ => isWordChar group1
             | EmptyString => false
             end
        else true)
       && dashesBeforeWords t)%bool
  end.

End Dashed.

(** ** The calls on the profiling tables, by table *)
Module ProfilingCalls.
Import Profiling.

Definition isCounterCall (c : call) : bool :=
  match c with
  | Count _ | CountEnd _ | CountEndAll => true
  | Time _ _ | TimeEnd _ _ => false
  end.

Definition isTimerCall (c : call) : bool :=
  match c with
  | Time _ _ | TimeEnd _ _ => true
  | Count _ | CountEnd _ | CountEndAll => false
  end.

End ProfilingCalls.

(** ** Proof automation *)

(** A closed conjunction of equations, each settled by evaluation. *)
Ltac by_evaluation :=
  cbv zeta; repeat match goal with |- _ /\ _ => split end; vm_compute; reflexivity.

(** A fact about one character of the ASCII range, by cases on its bits. *)
Ltac by_cases_on_ascii c :=
  destruct c as [[] [] [] [] [] [] [] []]; vm_compute; try discriminate; auto.

(* ===================================================================== *)
(** * Part II: theorems *)
(* ===================================================================== *)

(** ** Strings *)

Lemma append_String (c : ascii) (s r : string) :
  (String c s ++ r)%string = String c (s ++ r)%string.
Proof. reflexivity. Qed.

Lemma append_EmptyString_l (r : string) : (EmptyString ++ r)%string = r.
Proof. reflexivity. Qed.

Lemma append_EmptyString_r (s : string) : (s ++ EmptyString)%string = s.
Proof.
  induction s as [|c t IH]; [reflexivity|]. rewrite append_String, IH. reflexivity.
Qed.

Lemma length_append (s r : string) :
  String.length (s ++ r) = (String.length s + String.length r)%nat.
Proof.
  induction s as [|c t IH]; [reflexivity|].
  rewrite append_String. simpl. rewrite IH. reflexivity.
Qed.

(** ** [arraysEqual] *)
Section ArraysEqual.
Import JS Arrays.

Lemma elementsEqual_Forall2 (xs ys : list value) :
  length xs = length ys ->
  elementsEqual xs ys = true <-> Forall2 (fun x y => strict_eq x y = true) xs ys.
Proof.
  revert ys. induction xs as [|x xs IH]; intros [|y ys] Hlen; simpl in *; try discriminate.
  - split; [constructor | reflexivity].
  - injection Hlen as Hlen. specialize (IH ys Hlen).
    destruct (strict_eq x y) eqn:E; simpl.
    + rewrite IH. split.
      * intros HF. constructor; assumption.
      * intros HF. inversion HF; assumption.
    + split; [discriminate|]. intros HF. inversion HF; congruence.
Qed.

Lemma elementsEqual_differ (xs ys : list value) (i : nat) (x y : value) :
  xs !! i = Some x -> ys !! i = Some y -> strict_eq x y = false ->
  elementsEqual xs ys = false.
Proof.
  revert ys i. induction xs as [|a xs IH]; intros [|b ys] [|i] Hx Hy Hne;
    simpl in *; try discriminate.
  - injection Hx as ->. injection Hy as ->. rewrite Hne. reflexivity.
  - destruct (strict_eq a b); simpl; [|reflexivity]. eapply IH; eassumption.
Qed.

Lemma arraysEqual_arrays (r r' : loc) (xs ys : list value) :
  arraysEqual (VArray r xs) (VArray r' ys) =
  Some (Nat.eqb r r' || (Nat.eqb (length xs) (length ys) && elementsEqual xs ys))%bool.
Proof.
  unfold arraysEqual. simpl.
  destruct (Nat.eqb r r'); simpl; [reflexivity|].
  destruct (Nat.eqb (length xs) (length ys)); reflexivity.
Qed.

(** C8. On arrays, [arraysEqual a b] is [true] exactly when [a] and [b]
    are the same reference or have equal lengths and pairwise [===]
    elements.  In particular it is [true] on an array and itself, [false]
    on arrays of different lengths (one reference denoting one array),
    and [false] on two distinct arrays that hold, at some index, two
    distinct objects, however alike these are. *)
Theorem arraysEqual_shallow :
  (forall r xs r' ys,
     arraysEqual (VArray r xs) (VArray r' ys) = Some true <->
     r = r' \/ (length xs = length ys /\
                Forall2 (fun x y => strict_eq x y = true) xs ys)) /\
  (forall r xs, arraysEqual (VArray r xs) (VArray r xs) = Some true) /\
  (forall r xs r' ys,
     (r = r' -> xs = ys) -> length xs <> length ys ->
     arraysEqual (VArray r xs) (VArray r' ys) = Some false) /\
  (forall r xs r' ys i o o' c,
     r <> r' -> xs !! i = Some (VObject o c) -> ys !! i = Some (VObject o' c) ->
     o <> o' ->
     arraysEqual (VArray r xs) (VArray r' ys) = Some false).
Proof.
  repeat split.
  - rewrite arraysEqual_arrays. intros [= Hb].
    apply orb_true_iff in Hb as [Hr | Hb].
    + left. apply Nat.eqb_eq. exact Hr.
    + apply andb_true_iff in Hb as [Hlen Hel]. apply Nat.eqb_eq in Hlen.
      right. split; [exact Hlen|]. apply elementsEqual_Forall2; assumption.
  - rewrite arraysEqual_arrays. intros [-> | [Hlen HF]].
    + rewrite Nat.eqb_refl. reflexivity.
    + apply elementsEqual_Forall2 in HF; [|exact Hlen].
      apply Nat.eqb_eq in Hlen. rewrite Hlen, HF, orb_true_r. reflexivity.
  - intros r xs. rewrite arraysEqual_arrays, Nat.eqb_refl. reflexivity.
  - intros r xs r' ys Hstore Hlen. rewrite arraysEqual_arrays.
    assert (Hr : Nat.eqb r r' = false).
    { apply Nat.eqb_neq. intros ->. apply Hlen. rewrite Hstore; reflexivity. }
    apply Nat.eqb_neq in Hlen. rewrite Hr, Hlen. reflexivity.
  - intros r xs r' ys i o o' c Hr Hx Hy Ho. rewrite arraysEqual_arrays.
    apply Nat.eqb_neq in Hr. rewrite Hr. simpl.
    rewrite (elementsEqual_differ xs ys i _ _ Hx Hy).
    + rewrite andb_false_r. reflexivity.
    + simpl. apply Nat.eqb_neq. exact Ho.
Qed.

(** The examples of the source's documentation; [objA] and [objB] are two
    objects alike in everything but their identity. *)
Example arraysEqual_documented :
  let objA := VObject 10 CObject in
  let objB := VObject 11 CObject in
  arraysEqual (VArray 1 []) (VArray 2 []) = Some true /\
  arraysEqual (VArray 1 [VNumber 1; VNumber 2; VNumber 3; VString "danny"])
              (VArray 2 [VNumber 1; VNumber 2; VNumber 3; VString "danny"])
  = Some true /\
  arraysEqual (VArray 1 [VBoolean false; VBoolean true]) (VArray 2 [VBoolean true])
  = Some false /\
  arraysEqual (VArray 1 [VNumber 1; VNumber 2; objA])
              (VArray 2 [VNumber 1; VNumber 2; objB]) = Some false /\
  arraysEqual (VArray 1 [objA; objB]) (VArray 2 [objA; objB]) = Some true /\
  arraysEqual VUndefined VUndefined = Some true /\
  arraysEqual (VArray 1 []) VUndefined = Some false /\
  arraysEqual (VArray 1 [VNumber nan]) (VArray 2 [VNumber nan]) = Some false.
Proof. by_evaluation. Qed.

End ArraysEqual.

(** ** Case conversion *)
Section CaseConversion.
Import Case.

Lemma upper_of_lower (c : ascii) :
  isUpper c = true -> toUpperCase (toLowerCase c) = c.
Proof. by_cases_on_ascii c. Qed.

Lemma lower_is_word (c : ascii) :
  isUpper c = true -> isWordChar (toLowerCase c) = true.
Proof. by_cases_on_ascii c. Qed.

Lemma identifierChar_not_dash (c : ascii) :
  isIdentifierChar c = true -> Ascii.eqb c "-" = false.
Proof. by_cases_on_ascii c. Qed.

Lemma dashedToCamelCase_keep (c : ascii) (t : string) :
  Ascii.eqb c "-" = false ->
  dashedToCamelCase (String c t) = String c (dashedToCamelCase t).
Proof.
  intros Hc. simpl. rewrite Hc. destruct t; reflexivity.
Qed.

Lemma dashedToCamelCase_dash (group1 : ascii) (u : string) :
  isWordChar group1 = true ->
  dashedToCamelCase (String "-" (String group1 u)) =
  String (toUpperCase group1) (dashedToCamelCase u).
Proof.
  intros Hw. cbn [dashedToCamelCase]. rewrite Hw. reflexivity.
Qed.

(** The round trip holds on every string that has no dash of its own. *)
Lemma roundTrip_without_dash (s : string) :
  allChars (fun c => negb (Ascii.eqb c "-")) s = true ->
  dashedToCamelCase (camelToKebabCase s) = s.
Proof.
  induction s as [|c t IH]; [reflexivity|].
  cbn [allChars camelToKebabCase]. intros Hs.
  apply andb_true_iff in Hs as [Hc Ht]. apply negb_true_iff in Hc.
  specialize (IH Ht).
  destruct (isUpper c) eqn:Hu.
  - rewrite dashedToCamelCase_dash by (apply lower_is_word; exact Hu).
    rewrite IH, upper_of_lower by exact Hu. reflexivity.
  - rewrite dashedToCamelCase_keep by exact Hc. rewrite IH. reflexivity.
Qed.

Lemma allChars_impl (p q : ascii -> bool) (s : string) :
  (forall c, p c = true -> q c = true) ->
  allChars p s = true -> allChars q s = true.
Proof.
  intros Hpq. induction s as [|c t IH]; [reflexivity|]. simpl.
  intros Hs. apply andb_true_iff in Hs as [Hc Ht].
  rewrite (Hpq c Hc), (IH Ht). reflexivity.
Qed.

(** C7. Both directions of the conversion are defined, and converting an
    identifier (letters, digits, [_], [$], no leading digit) to kebab case
    and back to camel case returns the identifier. *)
Theorem kebabToCamelCase_camelToKebabCase (s : string) :
  isIdentifier s = true ->
  dashedToCamelCase (camelToKebabCase s) = s.
Proof.
  intros Hid. apply roundTrip_without_dash.
  destruct s as [|c t]; [discriminate|].
  unfold isIdentifier in Hid. apply andb_true_iff in Hid as [_ Hall].
  revert Hall. apply allChars_impl.
  intros a Ha. rewrite (identifierChar_not_dash a Ha). reflexivity.
Qed.

Lemma kebabToCamelCase_camelToKebabCase_witness :
  isIdentifier "myLongVariableName" = true /\
  camelToKebabCase "myLongVariableName" = "my-long-variable-name"%string /\
  dashedToCamelCase (camelToKebabCase "myLongVariableName") =
  "myLongVariableName"%string.
Proof.
  split; [reflexivity|]. split; [reflexivity|].
  apply (kebabToCamelCase_camelToKebabCase "myLongVariableName"). reflexivity.
Defined.

End CaseConversion.

(** ** The console printer *)
Section ConsolePrinter.
Import JS Printer.

Variable inspect : value -> inspectOpts -> string.

Lemma forEachArg_snoc opts acc i args arg :
  forEachArg inspect opts acc i (args ++ [arg]) =
  printArg inspect opts (forEachArg inspect opts acc i args) (i + length args) arg.
Proof.
  revert acc i. induction args as [|a args IH]; intros acc i; simpl.
  - rewrite Nat.add_0_r. reflexivity.
  - rewrite IH. f_equal. lia.
Qed.

Lemma printArg_nonempty opts acc i arg :
  acc <> [] -> printArg inspect opts acc i arg <> [].
Proof.
  intros Hacc. unfold printArg.
  destruct (Nat.eqb i 0 || testCommaNewline (format inspect opts arg))%bool.
  - destruct acc; discriminate.
  - destruct (acc !! (length acc - 1)%nat) as [prev|]; [|exact Hacc].
    destruct (80 <? _)%nat.
    + destruct acc; discriminate.
    + intros Hnil. apply (f_equal (@length string)) in Hnil.
      rewrite length_insert in Hnil. destruct acc; [congruence | discriminate].
Qed.

Lemma forEachArg_nonempty opts acc i args :
  acc <> [] -> forEachArg inspect opts acc i args <> [].
Proof.
  revert acc i. induction args as [|a args IH]; intros acc i Hacc; simpl.
  - exact Hacc.
  - apply IH, printArg_nonempty, Hacc.
Qed.

(** After the first value there is always a last line to join to. *)
Lemma prettyPrint_last_line opts arg0 args :
  exists init prev, prettyPrint inspect (arg0 :: args) opts = init ++ [prev].
Proof.
  destruct (exists_last (l := prettyPrint inspect (arg0 :: args) opts))
    as (init & prev & Heq).
  - unfold prettyPrint. simpl. apply forEachArg_nonempty. discriminate.
  - exists init, prev. exact Heq.
Qed.

(** A value after the first, against the lines printed so far. *)
Lemma printArg_later opts init prev i arg :
  printArg inspect opts (init ++ [prev]) (S i) arg =
  let formattedArg := format inspect opts arg in
  if testCommaNewline formattedArg then init ++ [prev; formattedArg]
  else if (getStylizedStringLength prev + getStylizedStringLength formattedArg + 1
           <=? 80)%nat
       then init ++ [(prev ++ " " ++ formattedArg)%string]
       else init ++ [prev; formattedArg].
Proof.
  unfold printArg. cbn zeta. simpl (Nat.eqb (S i) 0 || _)%bool.
  destruct (testCommaNewline (format inspect opts arg)).
  - rewrite <- app_assoc. reflexivity.
  - replace (length (init ++ [prev]) - 1)%nat with (length init)
      by (rewrite length_app; simpl; lia).
    rewrite list_lookup_middle by reflexivity.
    rewrite Nat.leb_antisym.
    destruct (_ <? _)%nat; simpl.
    + rewrite <- app_assoc. reflexivity.
    + replace (length init) with (length init + 0)%nat at 1 by lia.
      rewrite insert_app_r. reflexivity.
Qed.

Lemma removeStyle_keep (c : ascii) (t : string) :
  Ascii.eqb c escape = false -> removeStyle (String c t) = String c (removeStyle t).
Proof. intros Hc. cbn [removeStyle]. rewrite Hc. reflexivity. Qed.

(** Characters before the first escape are all counted. *)
Lemma removeStyle_plain (plain rest : string) :
  Case.allChars (fun c => negb (Ascii.eqb c escape)) plain = true ->
  removeStyle (plain ++ rest) = (plain ++ removeStyle rest)%string.
Proof.
  induction plain as [|c t IH]; intros Hall.
  - rewrite !append_EmptyString_l. reflexivity.
  - cbn [Case.allChars] in Hall. apply andb_true_iff in Hall as [Hc Ht].
    apply negb_true_iff in Hc.
    rewrite !append_String, removeStyle_keep, IH by assumption. reflexivity.
Qed.

(** A color sequence adds nothing to the visible length. *)
Lemma getStylizedStringLength_color (d1 d2 : ascii) (s : string) :
  isDigit d1 = true -> isDigit d2 = true ->
  getStylizedStringLength
    (String escape (String "[" (String d1 (String d2 (String "m" s))))) =
  getStylizedStringLength s /\
  getStylizedStringLength (String escape (String "[" (String d1 (String "m" s)))) =
  getStylizedStringLength s.
Proof.
  intros H1 H2. unfold getStylizedStringLength.
  assert (Hm : Ascii.eqb d2 "m" = false).
  { destruct d2 as [[] [] [] [] [] [] [] []]; vm_compute in H2 |- *;
      congruence. }
  split.
  - cbn [removeStyle]. change (Ascii.eqb escape escape) with true. cbv iota.
    change (Ascii.eqb "[" "[") with true. rewrite H1. cbn [andb].
    rewrite Hm, H2. change (Ascii.eqb "m" "m") with true. reflexivity.
  - cbn [removeStyle]. change (Ascii.eqb escape escape) with true. cbv iota.
    change (Ascii.eqb "[" "[") with true. rewrite H1. cbn [andb].
    change (Ascii.eqb "m" "m") with true. reflexivity.
Qed.

(** C6, as the code has it.  Strings are printed as they are and other
    values as [util.inspect] renders them; the first value starts the
    first line; a later value whose rendering contains a comma followed
    by a line feed starts a line of its own; any other later value is
    joined to the last line with one space exactly when the visible
    lengths of that line and of the value, plus one for the space, stay
    within 80, and starts a new line otherwise.  A color sequence
    ([ESC [ d m] or [ESC [ d d m]) does not count in a visible length:
    after plain characters, only these are counted. *)
Theorem prettyPrint_layout (opts : inspectOpts) :
  (forall s, format inspect opts (VString s) = s) /\
  (forall arg, prettyPrint inspect [arg] opts = [format inspect opts arg]) /\
  (forall arg0 args arg,
     exists init prev,
       prettyPrint inspect (arg0 :: args) opts = init ++ [prev] /\
       prettyPrint inspect ((arg0 :: args) ++ [arg]) opts =
       let formattedArg := format inspect opts arg in
       if testCommaNewline formattedArg then init ++ [prev; formattedArg]
       else if (getStylizedStringLength prev
                + getStylizedStringLength formattedArg + 1 <=? 80)%nat
            then init ++ [(prev ++ " " ++ formattedArg)%string]
            else init ++ [prev; formattedArg]) /\
  (forall plain d1 d2 s,
     Case.allChars (fun c => negb (Ascii.eqb c escape)) plain = true ->
     isDigit d1 = true -> isDigit d2 = true ->
     getStylizedStringLength
       (plain ++ String escape (String "[" (String d1 (String d2 (String "m" s))))) =
     (String.length plain + getStylizedStringLength s)%nat /\
     getStylizedStringLength
       (plain ++ String escape (String "[" (String d1 (String "m" s)))) =
     (String.length plain + getStylizedStringLength s)%nat).
Proof.
  split; [reflexivity|]. split; [reflexivity|]. split.
  - intros arg0 args arg.
    destruct (prettyPrint_last_line opts arg0 args) as (init & prev & Hlines).
    exists init, prev. split; [exact Hlines|].
    unfold prettyPrint in *. rewrite forEachArg_snoc, Hlines.
    simpl (0 + length (arg0 :: args))%nat. apply printArg_later.
  - intros plain d1 d2 s Hplain H1 H2.
    destruct (getStylizedStringLength_color d1 d2 s H1 H2) as [Htwo Hone].
    unfold getStylizedStringLength in *.
    rewrite !removeStyle_plain, !length_append by exact Hplain.
    rewrite Htwo, Hone. split; reflexivity.
Qed.

(** Two short strings share a line; a value that would take the line past
    80 characters starts the next one; a colored string counts by its
    visible characters. *)
Example prettyPrint_examples (opts : inspectOpts) :
  let red := (String escape "[31mError" ++ String escape "[39m:")%string in
  let long := String.concat "" (repeat "0123456789"%string 8) in
  getStylizedStringLength red = 6%nat /\
  prettyPrint inspect [VString "even:"; VString "50"] opts = ["even: 50"%string] /\
  prettyPrint inspect [VString red; VString "missing"] opts
  = [(red ++ " missing")%string] /\
  prettyPrint inspect [VString "x"; VString long] opts = ["x"%string; long] /\
  prettyPrint inspect [] opts = [].
Proof. by_evaluation. Qed.

End ConsolePrinter.

(** A rendering with a line feed followed by a comma, and none the other
    way round, is joined to the line before it. *)
Lemma prettyPrint_newline_then_comma_joined :
  let rendering := String "a" (String Printer.newline ",b") in
  Printer.testNewlineComma rendering = true /\
  Printer.prettyPrint (fun _ _ => ""%string)
    [JS.VString "x"; JS.VString rendering]
    {| Printer.depth := Some 2%nat; Printer.colors := true |} =
  [String "x" (String " " rendering)].
Proof. split; reflexivity. Qed.

(** ** The options validator *)
Section OptionsValidator.
Import JS Opts.

Lemma ctor_eqb_eq (c d : ctor) : ctor_eqb c d = true <-> c = d.
Proof.
  destruct c, d; simpl; split; intros Heq; try discriminate; try reflexivity.
  - apply String.eqb_eq in Heq. congruence.
  - injection Heq as ->. apply String.eqb_refl.
Qed.

Lemma strict_eq_undefined (v : value) : strict_eq v VUndefined = true <-> v = VUndefined.
Proof. destruct v; simpl; split; intros Heq; congruence. Qed.

Lemma includes_strict_undefined (elems : list value) :
  includes_strict elems VUndefined = true <-> In VUndefined elems.
Proof.
  unfold includes_strict. rewrite existsb_exists. split.
  - intros (x & Hin & Hx). apply strict_eq_undefined in Hx. subst x. exact Hin.
  - intros Hin. exists VUndefined. split; [exact Hin | reflexivity].
Qed.

Lemma includes_strict_In (accepted : list value) (v : value) :
  includes_strict accepted v = true <->
  exists x, In x accepted /\ strict_eq x v = true.
Proof. unfold includes_strict. apply existsb_exists. Qed.

Lemma undefinedValue_false (optsVal : value) :
  undefinedValue optsVal = false <-> ~ absentOrEmptyOrContainsAbsent optsVal.
Proof.
  unfold undefinedValue, absentOrEmptyOrContainsAbsent, absentOrContainsAbsent.
  rewrite orb_false_iff. split.
  - intros [Hu Harr] [[-> | (ref & elems & -> & Hin)] | (ref & ->)];
      simpl in *; try discriminate.
    + apply includes_strict_undefined in Hin. rewrite Hin, orb_true_r in Harr.
      discriminate.
  - intros Hno. split.
    + destruct (strict_eq optsVal VUndefined) eqn:E; [|reflexivity].
      apply strict_eq_undefined in E. exfalso. apply Hno. left. left. exact E.
    + destruct optsVal as [| | | | |ref elems|]; try reflexivity.
      apply orb_false_iff. split.
      * destruct elems; [|reflexivity]. exfalso. apply Hno. right. eauto.
      * destruct (includes_strict elems VUndefined) eqn:E; [|reflexivity].
        apply includes_strict_undefined in E. exfalso. apply Hno. left. right. eauto.
Qed.

Lemma everyConstructor_true (expected : ctor) (elems : list value) :
  everyConstructor expected elems = Some true <->
  forall el, In el elems -> constructor el = Some expected.
Proof.
  induction elems as [|el rest IH]; simpl.
  - split; [intros _ el [] | reflexivity].
  - destruct (constructor el) as [c|] eqn:Hc.
    + destruct (ctor_eqb c expected) eqn:Hce.
      * apply ctor_eqb_eq in Hce. subst c. rewrite IH. split.
        -- intros Hrest x [<- | Hin]; [exact Hc | apply Hrest, Hin].
        -- intros Hall x Hin. apply Hall. right. exact Hin.
      * split; [discriminate|]. intros Hall.
        specialize (Hall el (or_introl eq_refl)). rewrite Hc in Hall.
        injection Hall as ->.
        assert (ctor_eqb expected expected = true) by (apply ctor_eqb_eq; reflexivity).
        congruence.
    + split; [discriminate|]. intros Hall.
      specialize (Hall el (or_introl eq_refl)). congruence.
Qed.

Lemma hasOwnProperty_get {A : Type} (o : object A) (prop : string) :
  hasOwnProperty o prop = true <-> exists v, get o prop = Some v.
Proof.
  unfold hasOwnProperty. destruct (get o prop) as [v|]; split;
    try discriminate; eauto.
  intros [v Hv]. discriminate.
Qed.

Lemma checkMissing_Pass (schema : object rule) (opts : object value) :
  checkMissing schema opts = Pass <-> requiredPresent schema opts.
Proof.
  unfold requiredPresent. induction schema as [|[prop val] rest IH]; simpl.
  - split; [intros _ p v [] | reflexivity].
  - destruct (optional val) eqn:Ho; simpl.
    + rewrite IH. split.
      * intros Hrest p v [[= <- <-] | Hin] Hopt; [congruence | eauto].
      * intros Hall p v Hin. apply Hall. right. exact Hin.
    + destruct (hasOwnProperty opts prop) eqn:Hh; simpl.
      * rewrite IH. split.
        -- intros Hrest p v [[= <- <-] | Hin] Hopt; [exact Hh | eauto].
        -- intros Hall p v Hin. apply Hall. right. exact Hin.
      * split; [discriminate|]. intros Hall.
        specialize (Hall prop val (or_introl eq_refl) Ho). congruence.
Qed.

Lemma checkProp_Pass (schema : object rule) (prop : string) (optsVal : value) :
  checkProp schema prop optsVal = Pass <->
  exists schemaVal, get schema prop = Some schemaVal /\
                    undefinedValue optsVal = false /\
                    matchesRule schemaVal optsVal.
Proof.
  unfold checkProp.
  destruct (get schema prop) as [schemaVal|]; cycle 1.
  { split; [discriminate | intros (sv & Hget & _); discriminate]. }
  transitivity (undefinedValue optsVal = false /\ matchesRule schemaVal optsVal);
    cycle 1.
  { split; [intros [Hu Hm]; eauto | intros (sv & [= <-] & Hu & Hm); auto]. }
  unfold matchesRule.
  destruct (undefinedValue optsVal) eqn:Hu.
  { split; [discriminate | intros [Hf _]; discriminate]. }
  destruct (schemaPropType schemaVal) as [expected | accepted].
  - destruct (constructor optsVal) as [c|] eqn:Hc; cycle 1.
    { split; [discriminate | intros (_ & Hm & _); discriminate]. }
    destruct (ctor_eqb c expected) eqn:Hce; simpl.
    + apply ctor_eqb_eq in Hce. subst c.
      destruct optsVal as [| | | | |ref elems|];
        try (split; [intros _; repeat split; intros; discriminate | reflexivity]).
      destruct (arrayType schemaVal) as [elType|] eqn:Ha.
      * destruct (everyConstructor elType elems) as [[]|] eqn:He.
        -- split; [|reflexivity]. intros _.
           repeat split. intros r els t [= <- <-] [= <-].
           apply everyConstructor_true, He.
        -- split; [discriminate|]. intros (_ & _ & Hall).
           assert (everyConstructor elType elems = Some true) as Hy.
           { apply everyConstructor_true. eapply Hall; reflexivity. }
           congruence.
        -- split; [discriminate|]. intros (_ & _ & Hall).
           assert (everyConstructor elType elems = Some true) as Hy.
           { apply everyConstructor_true. eapply Hall; reflexivity. }
           congruence.
      * split; [|reflexivity]. intros _.
        repeat split. intros r els t _ Ht. discriminate.
    + split; [discriminate|]. intros (_ & [= <-] & _).
      assert (ctor_eqb c c = true) by (apply ctor_eqb_eq; reflexivity). congruence.
  - destruct (includes_strict accepted optsVal) eqn:Hi; simpl.
    + split; [|reflexivity]. intros _.
      repeat split. apply includes_strict_In, Hi.
    + split; [discriminate|]. intros (_ & Hm).
      apply includes_strict_In in Hm. congruence.
Qed.

Lemma checkOpts_Pass (schema : object rule) (opts : object value) :
  checkOpts schema opts = Pass <->
  forall prop optsVal, In (prop, optsVal) opts -> checkProp schema prop optsVal = Pass.
Proof.
  induction opts as [|[prop optsVal] rest IH]; simpl.
  - split; [intros _ p v [] | reflexivity].
  - destruct (checkProp schema prop optsVal) eqn:Hc.
    + rewrite IH. split.
      * intros Hrest p v [[= <- <-] | Hin]; [exact Hc | eauto].
      * intros Hall p v Hin. apply Hall. right. exact Hin.
    + split; [discriminate|]. intros Hall.
      specialize (Hall prop optsVal (or_introl eq_refl)). congruence.
    + split; [discriminate|]. intros Hall.
      specialize (Hall prop optsVal (or_introl eq_refl)). congruence.
Qed.


Lemma illFormedOpts_false_run (schema : object rule) (opts : object value) :
  illFormedOpts schema opts = Some false <->
  checkMissing schema opts = Pass /\ checkOpts schema opts = Pass.
Proof.
  unfold illFormedOpts, run.
  destruct (checkMissing schema opts); [|split; [discriminate | intros [? _]; discriminate]..].
  destruct (checkOpts schema opts); split; try discriminate; try (intros [_ ?]; discriminate).
  all: auto.
Qed.

(** C1, as the code has it: [illFormedOpts] returns [false] exactly when
    every required key of the schema is present, every key of the
    candidate is declared, no value is [undefined], an empty array or an
    array containing [undefined], and every value matches its rule. *)
Theorem illFormedOpts_false_iff (schema : object rule) (opts : object value) :
  illFormedOpts schema opts = Some false <->
  requiredPresent schema opts /\ keysDeclared schema opts /\
  noAbsentOrEmptyValue opts /\ valuesMatch schema opts.
Proof.
  rewrite illFormedOpts_false_run, checkMissing_Pass, checkOpts_Pass.
  unfold keysDeclared, noAbsentOrEmptyValue, valuesMatch.
  split.
  - intros [Hreq Hall]. split; [exact Hreq|]. repeat split.
    + intros prop v Hin. apply Hall, checkProp_Pass in Hin as (sv & Hget & _).
      apply hasOwnProperty_get. eauto.
    + intros prop v Hin. apply Hall, checkProp_Pass in Hin as (sv & _ & Hu & _).
      apply undefinedValue_false, Hu.
    + intros prop v sv Hin Hget.
      apply Hall, checkProp_Pass in Hin as (sv' & Hget' & _ & Hm). congruence.
  - intros (Hreq & Hdecl & Hno & Hmatch). split; [exact Hreq|].
    intros prop v Hin. apply checkProp_Pass.
    destruct (proj1 (hasOwnProperty_get schema prop) (Hdecl _ _ Hin)) as [sv Hget].
    exists sv. split; [exact Hget|]. split.
    + apply undefinedValue_false. eapply Hno, Hin.
    + eapply Hmatch; eassumption.
Qed.

(** The schema of the source's documentation, on a candidate that
    conforms and on candidates that break one rule each. *)
Example illFormedOpts_documented :
  let schema :=
    [("num"%string, RType CNumber);
     ("list"%string, RDesc (TCtor CArray) false None);
     ("strings"%string, RDesc (TCtor CArray) false (Some CString));
     ("str"%string, RDesc (TCtor CString) true None);
     ("val"%string, RValues [VString "red"; VString "yellow"; VString "blue"])] in
  let good :=
    [("num"%string, VNumber 7); ("list"%string, VArray 1 [VNumber 1; VString "a"]);
     ("strings"%string, VArray 2 [VString "a"; VString "b"]);
     ("val"%string, VString "yellow")] in
  illFormedOpts schema good = Some false /\
  diagnostics schema good = [] /\
  diagnostics schema (tail good) = [MissingProperty "num"] /\
  diagnostics schema (good ++ [("colour"%string, VString "red")]) =
    [UnrecognizedProperty "colour"] /\
  diagnostics schema (("num"%string, VString "7") :: tail good) =
    [WrongType "num" CNumber (VString "7")] /\
  diagnostics schema (good ++ [("str"%string, VUndefined)]) =
    [UndefinedValue "str" VUndefined] /\
  diagnostics schema
    [("num"%string, VNumber 7); ("list"%string, VArray 1 [VNumber 1]);
     ("strings"%string, VArray 2 [VString "a"; VNumber 2]);
     ("val"%string, VString "yellow")] =
    [WrongElementType "strings" CString (VArray 2 [VString "a"; VNumber 2])] /\
  diagnostics schema
    [("num"%string, VNumber 7); ("list"%string, VArray 1 [VNumber 1]);
     ("strings"%string, VArray 2 [VString "a"]); ("val"%string, VString "green")] =
    [UnrecognizedValue "val" (VString "green")
       [VString "red"; VString "yellow"; VString "blue"]] /\
  illFormedOpts schema (("num"%string, VNull) :: tail good) = None.
Proof. by_evaluation. Qed.

End OptionsValidator.

(** An empty array under a rule that asks for an array meets the four
    conditions of the spec's property, and is reported all the same. *)
Lemma illFormedOpts_empty_array :
  let schema := [("list"%string, Opts.RType JS.CArray)] in
  let opts := [("list"%string, JS.VArray 1 [])] in
  (Opts.requiredPresent schema opts /\ Opts.keysDeclared schema opts /\
   Opts.noAbsentValue opts /\ Opts.valuesMatch schema opts) /\
  Opts.illFormedOpts schema opts = Some true /\
  Opts.diagnostics schema opts = [Opts.UndefinedValue "list" (JS.VArray 1 [])].
Proof.
  cbv zeta. split; [|split; reflexivity].
  split; [|split; [|split]].
  - intros prop val [[= <- <-] | []] _. reflexivity.
  - intros prop v [[= <- <-] | []]. reflexivity.
  - intros prop v [[= <- <-] | []] [Hu | (ref & elems & [= <- <-] & [])].
    discriminate.
  - intros prop v sv [[= <- <-] | []] [= <-]. split; [reflexivity|].
    intros ref elems t [= <- <-] Ht. discriminate.
Qed.

(** ** The order of the validator's checks *)
Section OrderOfChecks.
Import JS Opts.

(** The first loop reports the first required key of the schema that the
    candidate lacks. *)
Lemma checkMissing_first (pre post : object rule) prop val (opts : object value) :
  (forall p r, In (p, r) pre -> optional r = true \/ hasOwnProperty opts p = true) ->
  optional val = false -> hasOwnProperty opts prop = false ->
  checkMissing (pre ++ (prop, val) :: post) opts = Reported (MissingProperty prop).
Proof.
  intros Hpre Hopt Hmiss. induction pre as [|[p r] pre IH]; simpl.
  - rewrite Hopt, Hmiss. reflexivity.
  - destruct (Hpre p r (or_introl eq_refl)) as [Ho | Hh].
    + rewrite Ho. simpl. apply IH. intros p' r' Hin. apply Hpre. right. exact Hin.
    + rewrite Hh, andb_false_r. apply IH. intros p' r' Hin. apply Hpre. right. exact Hin.
Qed.

(** The second loop stops at the first property whose checks do not
    pass. *)
Lemma checkOpts_first (schema : object rule) (pre post : object value) prop optsVal :
  (forall p v, In (p, v) pre -> checkProp schema p v = Pass) ->
  checkProp schema prop optsVal <> Pass ->
  checkOpts schema (pre ++ (prop, optsVal) :: post) = checkProp schema prop optsVal.
Proof.
  intros Hpre Hstop. induction pre as [|[p v] pre IH]; simpl.
  - destruct (checkProp schema prop optsVal); congruence.
  - rewrite (Hpre p v (or_introl eq_refl)). apply IH.
    intros p' v' Hin. apply Hpre. right. exact Hin.
Qed.

Lemma checkUnrecognized_declared (schema : object rule) (opts : object value) :
  keysDeclared schema opts -> checkUnrecognized schema opts = Pass.
Proof.
  unfold keysDeclared. induction opts as [|[p v] rest IH]; simpl; intros Hd.
  - reflexivity.
  - rewrite (Hd p v (or_introl eq_refl)). simpl. apply IH.
    intros p' v' Hin. eapply Hd. right. exact Hin.
Qed.

(** C2, as the code has it.  The missing-property checks over the whole
    schema come first: a required key the candidate lacks is reported
    whatever the candidate holds.  The remaining checks run key by key in
    the candidate's order, each key going through "unrecognized",
    "undefined", "accepted value" or "type", then "element type", and the
    first check that fails on the first failing key ends the call.  A call
    logs one diagnostic when it returns [true] and none otherwise.  This is
    the spec's listed order whenever every candidate key is declared. *)
Theorem illFormedOpts_order (schema : object rule) :
  (forall opts v,
     checkMissing schema opts = Reported v -> run schema opts = Reported v) /\
  (forall pre prop val post opts,
     schema = pre ++ (prop, val) :: post ->
     (forall p r, In (p, r) pre -> optional r = true \/ hasOwnProperty opts p = true) ->
     optional val = false -> hasOwnProperty opts prop = false ->
     run schema opts = Reported (MissingProperty prop)) /\
  (forall pre prop optsVal post,
     checkMissing schema (pre ++ (prop, optsVal) :: post) = Pass ->
     (forall p v, In (p, v) pre -> checkProp schema p v = Pass) ->
     checkProp schema prop optsVal <> Pass ->
     run schema (pre ++ (prop, optsVal) :: post) = checkProp schema prop optsVal) /\
  (forall prop optsVal,
     (get schema prop = None ->
      checkProp schema prop optsVal = Reported (UnrecognizedProperty prop)) /\
     (forall schemaVal, get schema prop = Some schemaVal ->
        (undefinedValue optsVal = true ->
         checkProp schema prop optsVal = Reported (UndefinedValue prop optsVal)) /\
        (undefinedValue optsVal = false ->
         forall accepted, schemaPropType schemaVal = TValues accepted ->
           includes_strict accepted optsVal = false ->
           checkProp schema prop optsVal =
           Reported (UnrecognizedValue prop optsVal accepted)) /\
        (undefinedValue optsVal = false ->
         forall expected c, schemaPropType schemaVal = TCtor expected ->
           constructor optsVal = Some c ->
           (c <> expected ->
            checkProp schema prop optsVal = Reported (WrongType prop expected optsVal)) /\
           (c = expected ->
            forall ref elems elType,
              optsVal = VArray ref elems -> arrayType schemaVal = Some elType ->
              everyConstructor elType elems = Some false ->
              checkProp schema prop optsVal =
              Reported (WrongElementType prop elType optsVal))))) /\
  (forall opts,
     (illFormedOpts schema opts = Some true <->
      exists v, diagnostics schema opts = [v]) /\
     (illFormedOpts schema opts <> Some true -> diagnostics schema opts = [])) /\
  (forall opts, keysDeclared schema opts -> run schema opts = listedOrder schema opts).
Proof.
  split; [|split; [|split; [|split; [|split]]]].
  - intros opts v Hm. unfold run. rewrite Hm. reflexivity.
  - intros pre prop val post opts -> Hpre Hopt Hmiss. unfold run.
    rewrite (checkMissing_first pre post prop val opts Hpre Hopt Hmiss). reflexivity.
  - intros pre prop optsVal post Hm Hpre Hstop. unfold run. rewrite Hm.
    apply checkOpts_first; assumption.
  - intros prop optsVal. unfold checkProp. split.
    + intros ->. reflexivity.
    + intros schemaVal ->. split; [|split].
      * intros ->. reflexivity.
      * intros -> accepted -> ->. reflexivity.
      * intros -> expected c -> ->. split.
        -- intros Hne. destruct (ctor_eqb c expected) eqn:E; [|reflexivity].
           apply ctor_eqb_eq in E. contradiction.
        -- intros -> ref elems elType -> -> ->.
           rewrite (proj2 (ctor_eqb_eq expected expected) eq_refl). reflexivity.
  - intros opts. unfold illFormedOpts, diagnostics.
    destruct (run schema opts) as [|v|].
    + split; [split; [discriminate | intros [v Hv]; discriminate] | reflexivity].
    + split; [split; eauto | intros Hne; contradiction Hne; reflexivity].
    + split; [split; [discriminate | intros [v Hv]; discriminate] | reflexivity].
  - intros opts Hd. unfold run, listedOrder.
    rewrite (checkUnrecognized_declared schema opts Hd). reflexivity.
Qed.

End OrderOfChecks.

(** An undefined value on an earlier key is reported before an
    unrecognized later key is looked at; the listed order would report
    the unrecognized key. *)
Lemma illFormedOpts_undefined_before_unrecognized :
  let schema := [("a"%string, Opts.RType JS.CNumber)] in
  let opts := [("a"%string, JS.VUndefined); ("zzz"%string, JS.VNumber 1%float)] in
  Opts.diagnostics schema opts = [Opts.UndefinedValue "a" JS.VUndefined] /\
  Opts.listedOrder schema opts = Opts.Reported (Opts.UnrecognizedProperty "zzz") /\
  Opts.run schema opts <> Opts.listedOrder schema opts.
Proof. cbv zeta. repeat split. discriminate. Qed.

(** ** Output redirection *)
Section OutputRedirection.
Import JS Redirect.

Context {FS : Type} `{NodeFs FS}.
Variable inspect : value -> Printer.inspectOpts -> string.

Lemma stdout_write_consoleLog (lines : list string) (w : @world FS) :
  stdout_write (consoleLog lines w) = stdout_write w.
Proof. reflexivity. Qed.

(** C3, as the code has it.  On every exit path [process.stdout.write]
    holds again what it held before the call.  When [callback] raises, the
    same error propagates.  When [callback] returns and the output path
    still resolves, the absolute path is reported through the restored
    write function and the callback's value is returned; when the path no
    longer resolves, the failure of [realpathSync] propagates instead.
    When the file cannot be created the call raises before anything is
    redirected. *)
Theorem redirectOutputToFile_restores (path : string)
    (callback : @callbackT FS) (w : @world FS) :
  let out := redirectOutputToFile inspect path callback w in
  let file := expandHomeDir (home w) path in
  stdout_write out.2 = stdout_write w /\
  (forall e, writeFileSync file (fs w) = Raise e -> out = (Raise e, w)) /\
  (forall created,
     writeFileSync file (fs w) = Return created ->
     let redirected :=
       setWrite (ToStream file) (setFs (createWriteStream file created) w) in
     (forall e w', callback redirected = (Raise e, w') ->
        out = (Raise e, setWrite (stdout_write w) w')) /\
     (forall returnVal w' real,
        callback redirected = (Return returnVal, w') ->
        realpathSync file (fs w') = Return real ->
        let report := Printer.log inspect [VString "Output saved to:"; VString real] in
        out = (Return returnVal, consoleLog report (setWrite (stdout_write w) w')) /\
        written out.2 =
        written w' ++ map (fun line => (stdout_write w, line)) report) /\
     (forall returnVal w' e,
        callback redirected = (Return returnVal, w') ->
        realpathSync file (fs w') = Raise e ->
        out = (Raise e, setWrite (stdout_write w) w'))).
Proof.
  cbv zeta. unfold redirectOutputToFile.
  destruct (writeFileSync (expandHomeDir (home w) path) (fs w)) as [created|e0] eqn:Hw.
  - split.
    + simpl. destruct (callback _) as [[returnVal|e] w'] eqn:Hc; simpl.
      * destruct (realpathSync _ (fs w')) as [real|e]; reflexivity.
      * reflexivity.
    + split; [intros e He; discriminate|].
      intros created' [= <-]. simpl. split; [|split].
      * intros e w' ->. reflexivity.
      * intros returnVal w' real -> Hreal. simpl. rewrite Hreal. split; reflexivity.
      * intros returnVal w' e -> Hreal. simpl. rewrite Hreal. reflexivity.
  - split; [reflexivity|]. split.
    + intros e [= <-]. reflexivity.
    + intros created Hcreated. discriminate.
Qed.

(** The spec's scenario: a callback that logs lines and then raises.  Its
    lines went to the stream, the write function is restored and the
    error reaches the caller. *)
Corollary redirectOutputToFile_callback_raises (path : string)
    (lines : list string) (e : exn) (w : @world FS) (created : FS) :
  let file := expandHomeDir (home w) path in
  writeFileSync file (fs w) = Return created ->
  let out := redirectOutputToFile inspect path
               (fun w => (Raise e, consoleLog lines w)) w in
  out.1 = Raise e /\
  stdout_write out.2 = stdout_write w /\
  written out.2 = written w ++ map (fun line => (ToStream file, line)) lines.
Proof.
  cbv zeta. intros Hw. unfold redirectOutputToFile. rewrite Hw. simpl.
  repeat split.
Qed.

End OutputRedirection.

(** A callback that removes the output file returns normally, and the
    call raises [ENOENT] from [realpathSync]: the path is not reported
    and the callback's value is lost.  The write function is restored. *)
Lemma redirectOutputToFile_output_removed :
  let w := {| Redirect.stdout_write := Redirect.Installed 0;
              Redirect.written := [];
              Redirect.fs := {| Redirect.regular := [];
                                Redirect.directories := ["/tmp"%string] |};
              Redirect.home := "/home/me"%string |} in
  let callback := fun w : @Redirect.world Redirect.files =>
    match Redirect.unlinkSync "/tmp/out.txt" (Redirect.fs w) with
    | JS.Return s => (JS.Return (JS.VNumber 1%float), Redirect.setFs s w)
    | JS.Raise e => (JS.Raise e, w)
    end in
  let redirected :=
    Redirect.setWrite (Redirect.ToStream "/tmp/out.txt")
      (Redirect.setFs {| Redirect.regular := ["/tmp/out.txt"%string];
                         Redirect.directories := ["/tmp"%string] |} w) in
  let out := Redirect.redirectOutputToFile (fun _ _ => ""%string)
               "/tmp/out.txt" callback w in
  (callback redirected).1 = JS.Return (JS.VNumber 1%float) /\
  out.1 = JS.Raise (JS.SystemError "ENOENT") /\
  Redirect.written out.2 = [] /\
  Redirect.stdout_write out.2 = Redirect.Installed 0.
Proof. cbv zeta. repeat split. Qed.

(** ** Timers *)
Section Timers.
Import JS Profiling.

Variable inspect : value -> Printer.inspectOpts -> string.

Local Open Scope Z_scope.




Lemma logCounts_tables (m : Map) (st : state) :
  _times (logCounts inspect m st) = _times st /\
  _counts (logCounts inspect m st) = _counts st.
Proof.
  revert st. induction m as [|[k v] m IH]; intros st; simpl; [split; reflexivity|].
  destruct (IH (log inspect [VString (k ++ ":"); number v] st)) as [-> ->].
  split; reflexivity.
Qed.





End Timers.

(** ** Counters *)
Section Counters.
Import JS Profiling.

Variable inspect : value -> Printer.inspectOpts -> string.

Local Open Scope Z_scope.






















(** The source's example: 50 increments of each of two labels, a third
    label left alone. *)
Example countEndAll_even_odd :
  let st := run inspect evenOddLoop initial in
  _counts st = [("even"%string, 50); ("odd"%string, 50)] /\
  Map_get (_counts st) "never reached" = None /\
  console (countEndAll inspect st) =
  Printer.log inspect [VString "even:"; number 50] ++
  Printer.log inspect [VString "odd:"; number 50] /\
  console (countEndAll inspect (countEndAll inspect st)) =
  console (countEndAll inspect st).
Proof. by_evaluation. Qed.





End Counters.

(** ** [cleanNumber] *)
Section CleanNumber.
Import Numbers.

Local Open Scope Z_scope.

Lemma digitChar_digit (d : Z) :
  0 <= d <= 9 ->
  Printer.isDigit (digitChar d) = true /\
  Z.of_nat (nat_of_ascii (digitChar d)) - 48 = d.
Proof.
  intros Hd.
  assert (Hcases : d = 0 \/ d = 1 \/ d = 2 \/ d = 3 \/ d = 4 \/
                   d = 5 \/ d = 6 \/ d = 7 \/ d = 8 \/ d = 9) by lia.
  repeat (destruct Hcases as [-> | Hcases]; [split; reflexivity|]).
  subst d. split; reflexivity.
Qed.

Lemma isDigit_not_sign (c : ascii) :
  Printer.isDigit c = true -> Ascii.eqb c "-" = false /\ Ascii.eqb c "." = false.
Proof.
  destruct c as [[] [] [] [] [] [] [] []]; vm_compute; intros; split; congruence.
Qed.

(** Reading back the digits [fixedDigits] wrote. *)
Lemma readDigits_fixedDigits (w : nat) (n : Z) (rest : string) :
  forall acc scale,
    readDigits (fixedDigits w n ++ rest) acc scale =
    readDigits rest (acc * 10 ^ Z.of_nat w + n mod 10 ^ Z.of_nat w)
      ((fun k => (k + w)%nat) <$> scale).
Proof.
  induction w as [|w IH]; intros acc scale.
  - cbn [fixedDigits]. rewrite append_EmptyString_l.
    change (10 ^ Z.of_nat 0) with 1. rewrite Z.mod_1_r. f_equal; [lia|].
    destruct scale; simpl; f_equal. lia.
  - cbn [fixedDigits]. rewrite append_String. cbn [readDigits].
    assert (Hd : 0 <= (n / 10 ^ Z.of_nat w) mod 10 <= 9).
    { pose proof (Z.mod_pos_bound (n / 10 ^ Z.of_nat w) 10). lia. }
    destruct (digitChar_digit _ Hd) as [-> ->].
    rewrite IH. f_equal.
    + rewrite Nat2Z.inj_succ, Z.pow_succ_r by lia.
      rewrite (Z.mul_comm 10 (10 ^ Z.of_nat w)).
      rewrite (Z.rem_mul_r n (10 ^ Z.of_nat w) 10) by lia. ring.
    + destruct scale; simpl; f_equal. lia.
Qed.

Lemma readDigits_dropLeadingZeros (s rest : string) :
  readDigits (dropLeadingZeros s ++ rest) 0 None = readDigits (s ++ rest) 0 None.
Proof.
  induction s as [|c t IH]; [reflexivity|].
  destruct t as [|c' t']; [reflexivity|].
  change (dropLeadingZeros (String c (String c' t')))
    with (if Ascii.eqb c "0" then dropLeadingZeros (String c' t')
          else String c (String c' t')).
  destruct (Ascii.eqb c "0") eqn:E; [|reflexivity].
  apply Ascii.eqb_eq in E. subst c. rewrite IH.
  rewrite (append_String "0"). cbn [readDigits].
  change (Printer.isDigit "0") with true. reflexivity.
Qed.

Lemma fixedDigits_allDigits (w : nat) (n : Z) :
  Case.allChars Printer.isDigit (fixedDigits w n) = true.
Proof.
  induction w as [|w IH]; [reflexivity|]. cbn [fixedDigits Case.allChars].
  assert (Hd : 0 <= (n / 10 ^ Z.of_nat w) mod 10 <= 9).
  { pose proof (Z.mod_pos_bound (n / 10 ^ Z.of_nat w) 10). lia. }
  destruct (digitChar_digit _ Hd) as [-> _]. exact IH.
Qed.

Lemma dropLeadingZeros_head (s : string) :
  Case.allChars Printer.isDigit s = true -> s <> EmptyString ->
  exists c t, dropLeadingZeros s = String c t /\ Printer.isDigit c = true.
Proof.
  induction s as [|c t IH]; intros Hall Hne; [contradiction|].
  cbn [Case.allChars] in Hall. apply andb_true_iff in Hall as [Hc Ht].
  destruct t as [|c' t'].
  - exists c, EmptyString. split; [reflexivity | exact Hc].
  - change (dropLeadingZeros (String c (String c' t')))
      with (if Ascii.eqb c "0" then dropLeadingZeros (String c' t')
            else String c (String c' t')).
    destruct (Ascii.eqb c "0").
    + apply IH; [exact Ht | discriminate].
    + exists c, (String c' t'). split; [reflexivity | exact Hc].
Qed.

Lemma nearestScaled_nonneg (f : nat) (num den : Z) :
  0 <= num -> 0 < den -> 0 <= nearestScaled f num den.
Proof.
  intros Hnum Hden. unfold nearestScaled. apply Z.div_pos; [|lia].
  pose proof (Z.pow_nonneg 10 (Z.of_nat f)). nia.
Qed.


Lemma below_pow10_of_bits (q : Z) :
  0 <= q -> q < 10 ^ Z.of_nat (S (Z.to_nat (Z.log2 q))).
Proof.
  intros Hq. pose proof (Z.log2_nonneg q) as Hl.
  rewrite Nat2Z.inj_succ, Z2Nat.id by exact Hl.
  destruct (Z.eq_dec q 0) as [-> | Hne]; [reflexivity|].
  pose proof (Z.log2_spec q) as Hs.
  assert (2 ^ Z.succ (Z.log2 q) <= 10 ^ Z.succ (Z.log2 q))
    by (apply Z.pow_le_mono_l; lia).
  lia.
Qed.

(** [Number] reads [toFixed]'s digits back as the integer they came
    from. *)
Lemma readDecimal_toFixedDigits (f : nat) (neg : bool) (num den : Z) :
  0 <= num -> 0 < den ->
  readDecimal (toFixedDigits f neg num den) =
  Some ((neg && negb (num =? 0))%bool, nearestScaled f num den, f).
Proof.
  intros Hnum Hden. unfold toFixedDigits.
  pose proof (nearestScaled_nonneg f num den Hnum Hden) as Hn.
  set (n := nearestScaled f num den) in *.
  assert (Hq : 0 <= n / 10 ^ Z.of_nat f)
    by (apply Z.div_pos; [exact Hn | apply Z.pow_pos_nonneg; lia]).
  assert (Hread :
    readDigits (decimalDigits (n / 10 ^ Z.of_nat f) ++ "." ++ fixedDigits f n)
      0 None = Some (n, f)).
  { unfold decimalDigits. rewrite readDigits_dropLeadingZeros, readDigits_fixedDigits.
    rewrite append_String, append_EmptyString_l.
    cbn [fmap option_fmap option_map readDigits].
    change (Printer.isDigit ".") with false. change (Ascii.eqb "." ".") with true.
    cbv iota.
    rewrite <- (append_EmptyString_r (fixedDigits f n)).
    rewrite readDigits_fixedDigits. cbn [fmap option_fmap option_map readDigits default].
    rewrite Z.mod_small by (split; [exact Hq | apply below_pow10_of_bits, Hq]).
    f_equal. f_equal.
    pose proof (Z.div_mod n (10 ^ Z.of_nat f)) as Hdm.
    assert (0 < 10 ^ Z.of_nat f) by (apply Z.pow_pos_nonneg; lia). lia. }
  destruct (neg && negb (num =? 0))%bool.
  - rewrite append_String, append_EmptyString_l. cbn [readDecimal].
    change (Ascii.eqb "-" "-") with true. cbv iota.
    rewrite Hread. reflexivity.
  - rewrite append_EmptyString_l.
    destruct (dropLeadingZeros_head
                (fixedDigits (S (Z.to_nat (Z.log2 (n / 10 ^ Z.of_nat f))))
                   (n / 10 ^ Z.of_nat f)))
      as (c & t & Hhead & Hc).
    { apply fixedDigits_allDigits. }
    { discriminate. }
    unfold decimalDigits in *. rewrite Hhead in *.
    rewrite append_String in *. cbn [readDecimal].
    rewrite (proj1 (isDigit_not_sign c Hc)). rewrite Hread. reflexivity.
Qed.

Lemma decode_finite (x : float) (neg : bool) (num den : Z) :
  decode x = DFinite neg num den -> 0 <= num /\ 0 < den.
Proof.
  unfold decode. destruct (Prim2SF x) as [s|s| |s m e]; try discriminate.
  - intros [= _ <- <-]. lia.
  - destruct (0 <=? e) eqn:He; intros [= _ <- <-].
    + apply Z.leb_le in He. pose proof (Z.pow_pos_nonneg 2 e). lia.
    + apply Z.leb_gt in He. pose proof (Z.pow_pos_nonneg 2 (- e)). lia.
Qed.

Lemma nearestEven_nearest (n d : Z) :
  0 < d ->
  let m := nearestEven n d in
  - d <= 2 * (m * d - n) <= d /\
  (Z.abs (2 * (m * d - n)) = d -> Z.even m = true).
Proof.
  intros Hd m. subst m. unfold nearestEven.
  pose proof (Z.div_mod n d) as Hdm.
  pose proof (Z.mod_pos_bound n d Hd) as Hb.
  destruct (d <? 2 * (n mod d)) eqn:Hup; [apply Z.ltb_lt in Hup | apply Z.ltb_ge in Hup].
  - split; [nia|]. intros Htie. exfalso. nia.
  - destruct (2 * (n mod d) =? d) eqn:Htie; [apply Z.eqb_eq in Htie | apply Z.eqb_neq in Htie].
    + destruct (Z.even (n / d)) eqn:Hev.
      * split; [nia | intros _; exact Hev].
      * split; [nia|]. intros _. rewrite Z.even_add, Hev. reflexivity.
    + split; [nia|]. intros Habs. exfalso. nia.
Qed.

Lemma scaled_positive (num den e : Z) :
  0 < num -> 0 < den -> 0 < (scaled num den e).1 /\ 0 < (scaled num den e).2.
Proof.
  intros Hn Hd. unfold scaled. destruct (0 <=? e) eqn:He; simpl.
  - apply Z.leb_le in He. pose proof (Z.pow_pos_nonneg 2 e). nia.
  - apply Z.leb_gt in He. pose proof (Z.pow_pos_nonneg 2 (- e)). nia.
Qed.

Lemma scaled_succ (num den e : Z) :
  (scaled num den (e + 1)).1 * (2 * (scaled num den e).2) =
  (scaled num den e).1 * (scaled num den (e + 1)).2.
Proof.
  unfold scaled.
  destruct (0 <=? e) eqn:He; [apply Z.leb_le in He | apply Z.leb_gt in He].
  - replace (0 <=? e + 1) with true by (symmetry; apply Z.leb_le; lia). simpl.
    rewrite Z.pow_add_r by lia. change (2 ^ 1) with 2. ring.
  - destruct (0 <=? e + 1) eqn:He1; [apply Z.leb_le in He1 | apply Z.leb_gt in He1]; simpl.
    + assert (e = -1) by lia. subst e.
      change (-1 + 1) with 0. change (- -1) with 1.
      rewrite Z.pow_0_r, Z.pow_1_r. ring.
    + replace (- e) with (- (e + 1) + 1) by lia.
      rewrite Z.pow_add_r by lia. change (2 ^ 1) with 2. ring.
Qed.

Lemma scaled_first_guess (num den : Z) :
  0 < num -> 0 < den ->
  let e0 := Z.log2 num - Z.log2 den - 53 in
  2 ^ 52 * (scaled num den e0).2 <= (scaled num den e0).1 < 2 ^ 54 * (scaled num den e0).2.
Proof.
  intros Hn Hd e0.
  pose proof (Z.log2_spec num Hn) as Ha. pose proof (Z.log2_spec den Hd) as Hb.
  pose proof (Z.log2_nonneg num) as Ha0. pose proof (Z.log2_nonneg den) as Hb0.
  rewrite Z.pow_succ_r in Ha, Hb by assumption.
  set (a := Z.log2 num) in *. set (b := Z.log2 den) in *.
  assert (HA : 0 < 2 ^ a) by (apply Z.pow_pos_nonneg; lia).
  assert (HB : 0 < 2 ^ b) by (apply Z.pow_pos_nonneg; lia).
  unfold scaled.
  destruct (0 <=? e0) eqn:He; [apply Z.leb_le in He | apply Z.leb_gt in He]; simpl.
  - assert (Hpow : 2 ^ a = 2 ^ e0 * 2 ^ b * 2 ^ 53).
    { rewrite <- !Z.pow_add_r by lia. f_equal. subst e0. lia. }
    assert (HP : 0 < 2 ^ e0) by (apply Z.pow_pos_nonneg; lia).
    change (2 ^ 52) with 4503599627370496. change (2 ^ 54) with 18014398509481984.
    change (2 ^ 53) with 9007199254740992 in Hpow.
    nia.
  - assert (Hpow : 2 ^ a * 2 ^ (- e0) = 2 ^ b * 2 ^ 53).
    { rewrite <- !Z.pow_add_r by lia. f_equal. subst e0. lia. }
    assert (HP : 0 < 2 ^ (- e0)) by (apply Z.pow_pos_nonneg; lia).
    change (2 ^ 52) with 4503599627370496. change (2 ^ 54) with 18014398509481984.
    change (2 ^ 53) with 9007199254740992 in Hpow.
    nia.
Qed.

Lemma binaryExponent_normal (num den : Z) :
  0 < num -> 0 < den ->
  let e := binaryExponent num den in
  -1074 <= e /\
  (-1074 < e ->
   2 ^ 52 * (scaled num den e).2 <= (scaled num den e).1 < 2 ^ 53 * (scaled num den e).2).
Proof.
  intros Hn Hd e. subst e. unfold binaryExponent.
  set (e0 := Z.log2 num - Z.log2 den - 53).
  pose proof (scaled_first_guess num den Hn Hd) as Hg. fold e0 in Hg. cbv zeta in Hg.
  pose proof (scaled_positive num den e0 Hn Hd) as [HN0 HD0].
  pose proof (scaled_succ num den e0) as Hs.
  pose proof (scaled_positive num den (e0 + 1) Hn Hd) as [HN1 HD1].
  pose proof (Z.div_mod (scaled num den e0).1 (scaled num den e0).2) as Hdm.
  pose proof (Z.mod_pos_bound (scaled num den e0).1 (scaled num den e0).2 HD0) as Hmb.
  change (2 ^ 52) with 4503599627370496 in *. change (2 ^ 54) with 18014398509481984 in *.
  change (2 ^ 53) with 9007199254740992 in *.
  split; [lia|]. intros Hnc.
  destruct (9007199254740992 <=? (scaled num den e0).1 / (scaled num den e0).2) eqn:Hq;
    [apply Z.leb_le in Hq | apply Z.leb_gt in Hq].
  - rewrite Z.max_l by lia. nia.
  - rewrite Z.max_l by lia. nia.
Qed.

(** [roundToDouble] rounds to nearest, ties to even, at 53 bits: the
    significand [m] is the integer nearest to [num / den / 2^e], the even
    one of two, and above the subnormal range it lies between [2^52] and
    [2^53]. *)
Lemma roundToDouble_nearest (neg : bool) (num den : Z) :
  0 < num -> 0 < den ->
  let e := binaryExponent num den in
  let n := (scaled num den e).1 in
  let d := (scaled num den e).2 in
  let m := nearestEven n d in
  n * (den * 2 ^ Z.max e 0) = num * 2 ^ Z.max (- e) 0 * d /\
  - d <= 2 * (m * d - n) <= d /\
  (Z.abs (2 * (m * d - n)) = d -> Z.even m = true) /\
  (-1074 < e -> 2 ^ 52 <= m <= 2 ^ 53) /\
  roundToDouble neg num den =
  if m =? 0 then (if neg then neg_zero else PrimFloat.zero)
  else if 2 ^ 2098 <=? m * 2 ^ (e + 1074)
       then (if neg then neg_infinity else infinity)
       else SF2Prim (S754_finite neg (Z.to_pos m) e).
Proof.
  intros Hn Hd e n d m.
  pose proof (scaled_positive num den e Hn Hd) as [HN HD]. fold n d in HN, HD.
  pose proof (nearestEven_nearest n d HD) as [Hnear Heven]. fold m in Hnear, Heven.
  split; [|split; [exact Hnear | split; [exact Heven | split]]].
  - subst n d. unfold scaled.
    destruct (0 <=? e) eqn:He; [apply Z.leb_le in He | apply Z.leb_gt in He]; simpl.
    + rewrite Z.max_l, Z.max_r by lia. rewrite Z.pow_0_r. ring.
    + rewrite Z.max_r, Z.max_l by lia. rewrite Z.pow_0_r. ring.
  - intros Hnormal.
    destruct (binaryExponent_normal num den Hn Hd) as [_ Hb].
    specialize (Hb Hnormal). fold e in Hb. fold n d in Hb.
    change (2 ^ 52) with 4503599627370496 in *.
    change (2 ^ 53) with 9007199254740992 in *. nia.
  - unfold roundToDouble. replace (num =? 0) with false
      by (symmetry; apply Z.eqb_neq; lia).
    reflexivity.
Qed.


(** [Number] on decimal literals agrees with the floats the literals
    denote, ties going to the even significand, down to the subnormal
    range and up to overflow. *)
Example Number_reads_decimals :
  Number "0.1" = 0.1%float /\
  Number "0.3" = 0.3%float /\
  Number "123.456" = 123.456%float /\
  Number "-2.5" = (-2.5)%float /\
  Number "9007199254740993" = 9007199254740992%float /\
  Number "9007199254740995" = 9007199254740996%float /\
  Number "-0.0000000000000" = (-0)%float /\
  roundToDouble false 5 (10 ^ 324) = 5e-324%float /\
  roundToDouble false 2 (10 ^ 324) = 0%float /\
  roundToDouble false (2 ^ 1024 - 2 ^ 970 - 1) 1 = 0x1.fffffffffffffp+1023%float /\
  roundToDouble false (2 ^ 1024 - 2 ^ 970) 1 = infinity.
Proof. by_evaluation. Qed.

(** [toFixed(13)] and [cleanNumber] on a few numbers. *)
Example cleanNumber_examples :
  toFixed13 1.5 = Some "1.5000000000000"%string /\
  toFixed13 (-1e-20) = Some "-0.0000000000000"%string /\
  toFixed13 (-0) = Some "0.0000000000000"%string /\
  toFixed13 1e21 = None /\
  cleanNumber 0.30000000000000004 = 0.3%float /\
  cleanNumber 1.5 = 1.5%float /\
  cleanNumber 1e21 = 1e21%float /\
  cleanNumber (-1e-20) = (-0)%float.
Proof. by_evaluation. Qed.

End CleanNumber.

(** ** Stack inspection *)
Section StackInspection.
Import JS Text Stack.

Local Open Scope Z_scope.

Lemma append_assoc (a b c : string) :
  (a ++ (b ++ c))%string = ((a ++ b) ++ c)%string.
Proof.
  induction a as [|x t IH]; [reflexivity|]. rewrite !append_String, IH. reflexivity.
Qed.

Lemma removeParens_app (a b : string) :
  removeParens (a ++ b) = (removeParens a ++ removeParens b)%string.
Proof.
  induction a as [|c t IH]; [reflexivity|].
  rewrite append_String. cbn [removeParens].
  destruct (Ascii.eqb c "(" || Ascii.eqb c ")")%bool; [exact IH|].
  rewrite append_String, IH. reflexivity.
Qed.

Lemma removeParens_without (s : string) :
  Case.allChars (fun c => negb (Ascii.eqb c "(" || Ascii.eqb c ")")) s = true ->
  removeParens s = s.
Proof.
  induction s as [|c t IH]; [reflexivity|]. cbn [Case.allChars removeParens].
  intros Hall. apply andb_true_iff in Hall as [Hc Ht]. apply negb_true_iff in Hc.
  rewrite Hc, IH by exact Ht. reflexivity.
Qed.

Lemma removeParens_clean (s : string) :
  Case.allChars (fun c => negb (Ascii.eqb c "(" || Ascii.eqb c ")")) (removeParens s)
  = true.
Proof.
  induction s as [|c t IH]; [reflexivity|]. cbn [removeParens].
  destruct (Ascii.eqb c "(" || Ascii.eqb c ")")%bool eqn:Hc; [exact IH|].
  cbn [Case.allChars]. rewrite Hc, IH. reflexivity.
Qed.

Lemma lastIndexOf_absent (c : ascii) (s : string) :
  Case.allChars (fun d => negb (Ascii.eqb d c)) s = true -> lastIndexOf c s = None.
Proof.
  induction s as [|d t IH]; [reflexivity|]. cbn [Case.allChars lastIndexOf].
  intros Hall. apply andb_true_iff in Hall as [Hd Ht]. apply negb_true_iff in Hd.
  rewrite IH, Hd by exact Ht. reflexivity.
Qed.

Lemma lastIndexOf_last (c : ascii) (before after : string) :
  Case.allChars (fun d => negb (Ascii.eqb d c)) after = true ->
  lastIndexOf c (before ++ String c after) = Some (String.length before).
Proof.
  intros Hafter. induction before as [|d t IH].
  - rewrite append_EmptyString_l. cbn [lastIndexOf].
    rewrite lastIndexOf_absent, Ascii.eqb_refl by exact Hafter. reflexivity.
  - rewrite append_String. cbn [lastIndexOf]. rewrite IH. reflexivity.
Qed.

Lemma substring_all (s : string) : substring 0 (String.length s) s = s.
Proof. induction s as [|c t IH]; [reflexivity|]. simpl. rewrite IH. reflexivity. Qed.

Lemma substring_skip (a b : string) (m : nat) :
  substring (String.length a) m (a ++ b) = substring 0 m b.
Proof.
  induction a as [|c t IH]; [reflexivity|]. rewrite append_String. simpl. exact IH.
Qed.

(** [slice] from the end of a prefix to the end of the string. *)
Lemma slice_after_prefix (a b : string) :
  slice (a ++ b) (Z.of_nat (String.length a)) None = b.
Proof.
  unfold slice, clampIndex. rewrite length_append.
  replace (Z.of_nat (String.length a) <? 0) with false by (symmetry; apply Z.ltb_ge; lia).
  rewrite Z.min_l by lia. rewrite Nat2Z.id.
  replace (Z.to_nat (Z.of_nat (String.length a + String.length b)
                     - Z.of_nat (String.length a))) with (String.length b) by lia.
  rewrite substring_skip. apply substring_all.
Qed.

(** X1. The location [getLine] cuts out of a frame.  When the frame has no
    parenthesis before its last space, the location is what follows that
    space, without parentheses. *)
Theorem location_after_last_space (before loc : string) :
  Case.allChars (fun c => negb (Ascii.eqb c "(" || Ascii.eqb c ")")) before = true ->
  Case.allChars (fun c => negb (Ascii.eqb c " ")) loc = true ->
  location (before ++ String " " loc) = removeParens loc /\
  Case.allChars (fun c => negb (Ascii.eqb c "(" || Ascii.eqb c ")"))
    (location (before ++ String " " loc)) = true.
Proof.
  intros Hbefore Hloc.
  assert (Heq : location (before ++ String " " loc) = removeParens loc).
  { unfold location. rewrite lastIndexOf_last by exact Hloc. cbn [position].
    rewrite removeParens_app, (removeParens_without before) by exact Hbefore.
    cbn [removeParens]. change (Ascii.eqb " " "(" || Ascii.eqb " " ")")%bool with false.
    cbv iota.
    change (before ++ String " " (removeParens loc))%string
      with (before ++ (String " " EmptyString ++ removeParens loc))%string.
    rewrite append_assoc.
    replace (Z.of_nat (String.length before) + 1)
      with (Z.of_nat (String.length (before ++ String " " EmptyString))).
    - apply slice_after_prefix.
    - rewrite length_append. simpl. lia. }
  split; [exact Heq|]. rewrite Heq. apply removeParens_clean.
Qed.

Lemma location_after_last_space_witness :
  location "    at Object.<anonymous> (/Users/Danny/test.js:9:12)" =
  "/Users/Danny/test.js:9:12"%string.
Proof.
  exact (proj1 (location_after_last_space "    at Object.<anonymous>"
                  "(/Users/Danny/test.js:9:12)" eq_refl eq_refl)).
Defined.

Lemma scanStack_passedOver filename mode name pre rest :
  Forall (fun line => passedOver filename line = true) pre ->
  scanStack filename mode name (pre ++ rest) = scanStack filename mode name rest.
Proof.
  induction 1 as [|line pre Hline _ IH]; [reflexivity|].
  cbn [app scanStack]. unfold passedOver in Hline.
  destruct (hasPath line); simpl in *; [rewrite Hline|]; exact IH.
Qed.

Lemma scanStack_calling_line filename name frames :
  scanStack filename true name frames = None <->
  Forall (fun line => passedOver filename line = true) frames.
Proof.
  induction frames as [|line rest IH]; cbn [scanStack].
  - split; [constructor | reflexivity].
  - destruct (passedOver filename line) eqn:Hp; unfold passedOver in Hp.
    + assert (Hgo : (if negb (hasPath line)
                     then scanStack filename true name rest
                     else if includes line filename
                          then scanStack filename true name rest
                          else Some (location line)) =
                    scanStack filename true name rest).
      { destruct (hasPath line); simpl in *; [rewrite Hp|]; reflexivity. }
      cbn [orb]. rewrite Hgo, IH. split.
      * intros Hrest. constructor; [unfold passedOver; exact Hp | exact Hrest].
      * intros Hall. inversion Hall; assumption.
    + apply orb_false_iff in Hp as [Hpath Hfile]. rewrite Hpath, Hfile. cbn [orb].
      split; [discriminate|]. intros Hall. inversion Hall as [|? ? Hline _]; subst.
      unfold passedOver in Hline. rewrite Hpath, Hfile in Hline. discriminate.
Qed.

(** X2. [getLine(true)].  It returns [undefined] exactly when every frame
    after the first three is passed over (it names no path or lies in the
    file of [getLine]); otherwise it returns the location of the first
    frame that is not. *)
Theorem getLine_calling_line (filename stack : string) :
  (getLine filename stack true = None <->
   Forall (fun line => passedOver filename line = true) (drop 3 (splitLines stack))) /\
  (forall pre line post,
     drop 3 (splitLines stack) = pre ++ line :: post ->
     Forall (fun line => passedOver filename line = true) pre ->
     passedOver filename line = false ->
     getLine filename stack true = Some (location line)).
Proof.
  unfold getLine. split; [apply scanStack_calling_line|].
  intros pre line post -> Hpre Hline. rewrite scanStack_passedOver by exact Hpre.
  cbn [scanStack]. unfold passedOver in Hline.
  apply orb_false_iff in Hline as [Hpath Hfile]. rewrite Hpath, Hfile. reflexivity.
Qed.




End StackInspection.

(** ** The [try] wrapper *)
Section TryCatchWrapper.
Import JS Text Stack.

Variable inspect : value -> Printer.inspectOpts -> string.
Variable colors : string -> string -> string.

Lemma log_one_string (s : string) : Printer.log inspect [VString s] = [s].
Proof. reflexivity. Qed.


Lemma printStack_frames name fullMessage message frames :
  Forall2 (fun frame line =>
             line = frame \/
             line = replaceFirst frame name (colors "red" name) \/
             line = removeParens frame)
    frames (printStack inspect colors name fullMessage message frames).
Proof.
  revert message. induction frames as [|frame rest IH]; intros message;
    cbn [printStack]; [constructor|].
  destruct (includes fullMessage frame); [|destruct (includes frame message)];
    rewrite log_one_string; constructor; auto.
Qed.

Lemma printStack_plain name fullMessage last frames :
  forall message i frame,
    message = last \/ message = "null"%string ->
    frames !! i = Some frame ->
    includes fullMessage frame = false ->
    includes frame last = false -> includes frame "null" = false ->
    printStack inspect colors name fullMessage message frames !! i =
    Some (removeParens frame).
Proof.
  induction frames as [|f rest IH]; intros message i frame Hmsg Hi Hfull Hlast Hnull;
    [discriminate|].
  cbn [printStack]. destruct i as [|i].
  - injection Hi as ->. rewrite Hfull.
    replace (includes frame message) with false
      by (destruct Hmsg as [-> | ->]; congruence).
    reflexivity.
  - simpl in Hi.
    destruct (includes fullMessage f); [|destruct (includes f message)];
      rewrite log_one_string; simpl; eapply IH; eauto.
Qed.

(** X5. What [tryCatchWrapper] prints for an error with a stack.  After the
    blank line comes one line per line of the stack: the frame as it is,
    the frame with the error's name colored, or the frame without its
    parentheses.  A frame that is no part of the message, and holds
    neither the last line of the message nor the text "null", is printed
    without its parentheses. *)
Theorem tryCatchWrapper_prints_stack (self : value) (name message stack : string)
    (rethrow : bool) :
  isEmpty stack = false ->
  exists lines,
    (tryCatchWrapper inspect colors
       (Throws (ErrorObject self name message stack)) rethrow).2
    = EmptyString :: lines /\
    Forall2 (fun frame line =>
               line = frame \/
               line = replaceFirst frame name (colors "red" name) \/
               line = removeParens frame)
      (splitLines stack) lines /\
    forall i frame,
      splitLines stack !! i = Some frame ->
      includes message frame = false ->
      includes frame (List.last (splitLines message) EmptyString) = false ->
      includes frame "null" = false ->
      lines !! i = Some (removeParens frame).
Proof.
  intros Hstack. unfold tryCatchWrapper. rewrite Hstack.
  eexists. split; [destruct rethrow; reflexivity|]. split.
  - apply printStack_frames.
  - intros i frame Hi Hfull Hlast Hnull.
    eapply printStack_plain; eauto.
Qed.

End TryCatchWrapper.

Lemma tryCatchWrapper_prints_stack_witness :
  let colors := fun color text => ("<" ++ color ++ ">" ++ text ++ "</>")%string in
  let inspect := fun (_ : JS.value) (_ : Printer.inspectOpts) => "x"%string in
  let stack := "Error: test failed
    at run (/home/me/test.js:3:9)"%string in
  (Stack.tryCatchWrapper inspect colors
     (Stack.Throws (Stack.ErrorObject (JS.VObject 1 (JS.CClass "Error")) "Error"
                      "test failed" stack)) false).2 =
  [""%string; "<red>Error</>: test failed"%string;
   "    at run /home/me/test.js:3:9"%string] /\
  exists lines,
    (Stack.tryCatchWrapper inspect colors
       (Stack.Throws (Stack.ErrorObject (JS.VObject 1 (JS.CClass "Error")) "Error"
                        "test failed" stack)) false).2 = EmptyString :: lines /\
    length lines = 2%nat.
Proof.
  cbv zeta. split; [reflexivity|].
  destruct (tryCatchWrapper_prints_stack
              (fun _ _ => "x"%string)
              (fun color text => ("<" ++ color ++ ">" ++ text ++ "</>")%string)
              (JS.VObject 1 (JS.CClass "Error")) "Error" "test failed"
              "Error: test failed
    at run (/home/me/test.js:3:9)" false eq_refl) as (lines & Hlines & Hframes & _).
  exists lines. split; [exact Hlines|].
  apply Forall2_length in Hframes. rewrite <- Hframes. reflexivity.
Defined.

(** ** More on the console printer *)
Section PrinterFacts.
Import JS Printer Text.

Lemma removeStyle_unfold (c : ascii) (t : string) :
  removeStyle (String c t) =
  if Ascii.eqb c escape then
    match t with
    | String b (String d1 (String x u)) =>
        if (Ascii.eqb b "[" && isDigit d1)%bool then
          if Ascii.eqb x "m" then removeStyle u
          else match u with
               | String y v =>
                   if (isDigit x && Ascii.eqb y "m")%bool then removeStyle v
                   else String c (removeStyle t)
               | EmptyString => String c (removeStyle t)
               end
        else String c (removeStyle t)
    | _ => String c (removeStyle t)
    end
  else String c (removeStyle t).
Proof. reflexivity. Qed.

Lemma space_facts :
  Ascii.eqb " " escape = false /\ Ascii.eqb " " "[" = false /\
  isDigit " " = false /\ Ascii.eqb " " "m" = false.
Proof. repeat split. Qed.

Lemma removeStyle_space_bounded (n : nat) :
  forall p r, (String.length p <= n)%nat ->
    removeStyle (p ++ String " " r) = (removeStyle p ++ String " " (removeStyle r))%string.
Proof.
  destruct space_facts as (Hs1 & Hs2 & Hs3 & Hs4).
  induction n as [|n IH]; intros p r Hlen.
  - destruct p; [|simpl in Hlen; lia].
    rewrite append_EmptyString_l, removeStyle_unfold, Hs1. reflexivity.
  - destruct p as [|c t].
    { rewrite append_EmptyString_l, removeStyle_unfold, Hs1. reflexivity. }
    simpl in Hlen.
    assert (Hkeep : removeStyle (t ++ String " " r) =
                    (removeStyle t ++ String " " (removeStyle r))%string)
      by (apply IH; lia).
    rewrite append_String, !(removeStyle_unfold c).
    destruct (Ascii.eqb c escape); [|rewrite Hkeep, append_String; reflexivity].
    destruct t as [|b [|d1 [|x [|y v]]]];
      rewrite ?append_String, ?append_EmptyString_l in *.
    + rewrite Hkeep. destruct r as [|r1 [|r2 r']]; rewrite ?Hs2; reflexivity.
    + rewrite Hkeep. destruct r as [|r1 r']; rewrite ?Hs3, ?andb_false_r; reflexivity.
    + rewrite Hkeep, Hs4. destruct (Ascii.eqb b "[" && isDigit d1)%bool; [|reflexivity].
      destruct r as [|r1 r']; rewrite ?Hs3; reflexivity.
    + rewrite Hkeep. destruct (Ascii.eqb b "[" && isDigit d1)%bool; [|reflexivity].
      destruct (Ascii.eqb x "m").
      * rewrite removeStyle_unfold, Hs1. reflexivity.
      * rewrite Hs4, andb_false_r. reflexivity.
    + rewrite Hkeep. destruct (Ascii.eqb b "[" && isDigit d1)%bool; [|reflexivity].
      destruct (Ascii.eqb x "m").
      * rewrite <- append_String. apply IH. simpl in *. lia.
      * destruct (isDigit x && Ascii.eqb y "m")%bool; [|reflexivity].
        apply IH. simpl in *. lia.
Qed.

Lemma removeStyle_space (p r : string) :
  removeStyle (p ++ String " " r) = (removeStyle p ++ String " " (removeStyle r))%string.
Proof. apply (removeStyle_space_bounded (String.length p)). lia. Qed.

Lemma removeStyle_length_bounded (n : nat) :
  forall s, (String.length s <= n)%nat ->
    (String.length (removeStyle s) <= String.length s)%nat.
Proof.
  induction n as [|n IH]; intros s Hlen.
  - destruct s; [simpl; lia | simpl in Hlen; lia].
  - destruct s as [|c t]; [simpl; lia|]. simpl in Hlen.
    assert (Hkeep : (String.length (String c (removeStyle t)) <= String.length (String c t))%nat).
    { simpl. pose proof (IH t ltac:(lia)). lia. }
    rewrite removeStyle_unfold.
    destruct (Ascii.eqb c escape); [|exact Hkeep].
    destruct t as [|b [|d1 [|x u]]]; try exact Hkeep.
    destruct (Ascii.eqb b "[" && isDigit d1)%bool; [|exact Hkeep].
    destruct (Ascii.eqb x "m").
    + pose proof (IH u ltac:(simpl in *; lia)). simpl. lia.
    + destruct u as [|y v]; [exact Hkeep|].
      destruct (isDigit x && Ascii.eqb y "m")%bool; [|exact Hkeep].
      pose proof (IH v ltac:(simpl in *; lia)). simpl. lia.
Qed.

Variable inspect : value -> inspectOpts -> string.

(** X6. The visible length of a string never exceeds its length, and is
    its length when the string holds no escape character. *)
Theorem getStylizedStringLength_bounds (s : string) :
  (getStylizedStringLength s <= String.length s)%nat /\
  (Case.allChars (fun c => negb (Ascii.eqb c escape)) s = true ->
   getStylizedStringLength s = String.length s).
Proof.
  unfold getStylizedStringLength. split.
  - apply (removeStyle_length_bounded (String.length s)). lia.
  - intros Hplain. rewrite <- (append_EmptyString_r s) at 1.
    rewrite removeStyle_plain by exact Hplain.
    change (removeStyle "") with EmptyString. rewrite append_EmptyString_r. reflexivity.
Qed.

Lemma joinWords_snoc (g : list string) (f : string) :
  g <> [] -> joinWords (g ++ [f]) = (joinWords g ++ String " " f)%string.
Proof.
  induction g as [|a g IH]; intros Hne; [contradiction|].
  destruct g as [|b g]; [reflexivity|].
  change (joinWords ((a :: b :: g) ++ [f]))
    with (a ++ String " " (joinWords ((b :: g) ++ [f])))%string.
  rewrite IH by discriminate.
  change (joinWords (a :: b :: g)) with (a ++ String " " (joinWords (b :: g)))%string.
  rewrite <- append_assoc, append_String. reflexivity.
Qed.

(** The lines are the formatted values in their order, gathered in
    groups joined by single spaces; a group of several values fits in 80
    visible characters. *)
Lemma prettyPrint_groups (args : list value) (opts : inspectOpts) :
  exists groups,
    prettyPrint inspect args opts = map joinWords groups /\
    concat groups = map (format inspect opts) args /\
    Forall (fun g => g <> [] /\
                     (length g = 1%nat \/
                      (getStylizedStringLength (joinWords g) <= 80)%nat)) groups.
Proof.
  induction args as [|x args IH] using rev_ind.
  - exists []. repeat split. constructor.
  - destruct args as [|arg0 rest].
    + exists [[format inspect opts x]]. repeat split.
      constructor; [|constructor]. split; [discriminate | left; reflexivity].
    + destruct IH as (groups & Hlines & Hconcat & Hfit).
      destruct (prettyPrint_last_line inspect opts arg0 rest) as (init & prev & Hlast).
      assert (Hstep : prettyPrint inspect ((arg0 :: rest) ++ [x]) opts =
                      printArg inspect opts (init ++ [prev]) (S (length rest)) x).
      { unfold prettyPrint in *. rewrite forEachArg_snoc, Hlast. reflexivity. }
      rewrite Hlast in Hlines. symmetry in Hlines.
      apply map_eq_app in Hlines as (groups' & lastGroup & -> & Hinit & Hprev).
      destruct lastGroup as [|g [|g' more]]; try discriminate.
      injection Hprev as Hprev.
      rewrite Hstep, printArg_later. cbv zeta.
      set (f := format inspect opts x).
      rewrite concat_app in Hconcat. cbn [concat] in Hconcat.
      rewrite app_nil_r in Hconcat.
      apply Forall_app in Hfit as [Hfit' Hg].
      pose proof (Forall_inv Hg) as [Hgne Hgfit]. subst init prev.
      assert (Hnew : exists groups,
                 map joinWords groups' ++ [joinWords g; f] = map joinWords groups /\
                 concat groups = map (format inspect opts) ((arg0 :: rest) ++ [x]) /\
                 Forall (fun g => g <> [] /\
                           (length g = 1%nat \/
                            (getStylizedStringLength (joinWords g) <= 80)%nat)) groups).
      { exists (groups' ++ [g; [f]]). split; [|split].
        - rewrite map_app. reflexivity.
        - rewrite concat_app. cbn [concat]. rewrite app_nil_r, map_app.
          change (map (format inspect opts) [x]) with [f].
          rewrite <- Hconcat, <- app_assoc. reflexivity.
        - apply Forall_app. split; [exact Hfit'|].
          constructor; [split; assumption|]. constructor; [|constructor].
          split; [discriminate | left; reflexivity]. }
      destruct (testCommaNewline f); [exact Hnew|].
      destruct (_ <=? 80)%nat eqn:Hbudget; [|exact Hnew].
      apply Nat.leb_le in Hbudget.
      exists (groups' ++ [g ++ [f]]). split; [|split].
      * rewrite map_app. cbn [map]. rewrite joinWords_snoc by exact Hgne.
        reflexivity.
      * rewrite concat_app. cbn [concat]. rewrite app_nil_r, map_app.
        change (map (format inspect opts) [x]) with [f].
        rewrite <- Hconcat, <- !app_assoc. reflexivity.
      * apply Forall_app. split; [exact Hfit'|]. constructor; [|constructor].
        split; [destruct g; discriminate|]. right.
        rewrite joinWords_snoc by exact Hgne.
        unfold getStylizedStringLength in *.
        rewrite removeStyle_space, length_append. simpl. lia.
Qed.

Lemma length_concat_nonempty {A : Type} (groups : list (list A)) :
  Forall (fun g => g <> []) groups -> (length groups <= length (concat groups))%nat.
Proof.
  induction 1 as [|g groups Hg _ IH]; [reflexivity|].
  cbn [concat]. rewrite length_app. destruct g; [contradiction|]. simpl. lia.
Qed.

(** X7. [prettyPrint] loses and reorders nothing.  Its lines are the
    formatted values in their order, gathered in non-empty groups, each
    group joined by single spaces on one line; so there are no more lines
    than values, and no line at all only when there is no value. *)
Theorem prettyPrint_keeps_values (args : list value) (opts : inspectOpts) :
  (exists groups,
     prettyPrint inspect args opts = map joinWords groups /\
     concat groups = map (format inspect opts) args /\
     Forall (fun g => g <> []) groups) /\
  (length (prettyPrint inspect args opts) <= length args)%nat /\
  (prettyPrint inspect args opts = [] <-> args = []).
Proof.
  destruct (prettyPrint_groups args opts) as (groups & Hlines & Hconcat & Hfit).
  assert (Hne : Forall (fun g => g <> []) groups).
  { eapply List.Forall_impl; [|exact Hfit]. intros g [Hg _]. exact Hg. }
  pose proof (length_concat_nonempty groups Hne) as Hlen.
  rewrite Hconcat, length_map in Hlen.
  split; [exists groups; auto|]. split.
  - rewrite Hlines, length_map. exact Hlen.
  - split.
    + intros Hnil. destruct args as [|arg0 rest]; [reflexivity|].
      destruct (prettyPrint_last_line inspect opts arg0 rest) as (init & prev & Hlast).
      rewrite Hlast in Hnil. destruct init; discriminate.
    + intros ->. reflexivity.
Qed.

(** X8. A line that joins several values fits the budget.  Every line
    [prettyPrint] prints is one formatted value alone, or has at most 80
    visible characters. *)
Theorem prettyPrint_joined_lines_fit (args : list value) (opts : inspectOpts)
    (line : string) :
  In line (prettyPrint inspect args opts) ->
  In line (map (format inspect opts) args) \/
  (getStylizedStringLength line <= 80)%nat.
Proof.
  destruct (prettyPrint_groups args opts) as (groups & Hlines & Hconcat & Hfit).
  rewrite Hlines. intros Hin. apply in_map_iff in Hin as (g & <- & Hg).
  rewrite List.Forall_forall in Hfit. destruct (Hfit g Hg) as [_ [Hone | Hshort]].
  - left. destruct g as [|w [|w' more]]; try discriminate.
    rewrite <- Hconcat. apply in_concat. exists [w]. split; [exact Hg | left; reflexivity].
  - right. exact Hshort.
Qed.

End PrinterFacts.

Lemma prettyPrint_joined_lines_fit_witness :
  let inspect := fun (_ : JS.value) (_ : Printer.inspectOpts) => "50"%string in
  let lines := Printer.prettyPrint inspect [JS.VString "even:"; JS.VNumber 50]
                 {| Printer.depth := Some 2%nat; Printer.colors := true |} in
  In "even: 50"%string lines /\
  (Printer.getStylizedStringLength "even: 50" <= 80)%nat.
Proof.
  cbv zeta.
  assert (Hin : In "even: 50"%string
                  (Printer.prettyPrint (fun _ _ => "50"%string)
                     [JS.VString "even:"; JS.VNumber 50]
                     {| Printer.depth := Some 2%nat; Printer.colors := true |}))
    by (left; reflexivity).
  split; [exact Hin|].
  destruct (prettyPrint_joined_lines_fit _ _ _ _ Hin) as [Hone | Hfit].
  - destruct Hone as [Heq | [Heq | []]]; discriminate.
  - exact Hfit.
Defined.

(** ** Labelled printing *)
Section LabelledPrinting.
Import JS Text Stack.

Variable inspect : value -> Printer.inspectOpts -> string.
Variable colors : string -> string -> string.

Lemma lastChar_snoc (s : string) (c : ascii) :
  lastChar (s ++ String c EmptyString) = Some c.
Proof.
  induction s as [|d t IH]; [reflexivity|].
  rewrite append_String. cbn [lastChar]. rewrite IH.
  destruct (t ++ String c EmptyString)%string eqn:E; [|reflexivity].
  destruct t; discriminate E.
Qed.

Lemma substring_prefix (s r : string) :
  String.substring 0 (String.length s) (s ++ r) = s.
Proof.
  induction s as [|c t IH]; [destruct r; reflexivity|].
  rewrite append_String. cbn [String.length String.substring]. rewrite IH.
  reflexivity.
Qed.

Lemma slice_drop_last (s : string) (c : ascii) :
  slice (s ++ String c EmptyString) 0 (Some (-1)%Z) = s.
Proof.
  unfold slice, clampIndex. rewrite length_append. cbn [String.length].
  change (0 <? 0)%Z with false. change (-1 <? 0)%Z with true. cbv iota.
  replace (Z.to_nat (Z.min 0 (Z.of_nat (String.length s + 1)))) with O by lia.
  replace (Z.to_nat (Z.max (Z.of_nat (String.length s + 1) + -1) 0
                     - Z.min 0 (Z.of_nat (String.length s + 1))))
    with (String.length s) by lia.
  apply substring_prefix.
Qed.

(** X9. [printWithColoredLabel] keeps the colon out of the coloring.  A
    label is printed colored and followed by one uncolored colon, then
    the values; the label given with its colon prints the same. *)
Theorem printWithColoredLabel_colon (label color : string) (args : list value) :
  lastChar label <> Some ":"%char ->
  printWithColoredLabel inspect colors label color args =
    Printer.log inspect (VString (colors color label ++ ":") :: args) /\
  printWithColoredLabel inspect colors (label ++ ":") color args =
    printWithColoredLabel inspect colors label color args.
Proof.
  intros Hlast.
  assert (Hplain : printWithColoredLabel inspect colors label color args =
                   Printer.log inspect (VString (colors color label ++ ":") :: args)).
  { unfold printWithColoredLabel. destruct (lastChar label) as [c|]; [|reflexivity].
    destruct (Ascii.eqb c ":") eqn:E; [|reflexivity].
    apply Ascii.eqb_eq in E. congruence. }
  split; [exact Hplain|]. rewrite Hplain.
  unfold printWithColoredLabel. rewrite lastChar_snoc, Ascii.eqb_refl, slice_drop_last.
  reflexivity.
Qed.

End LabelledPrinting.

Lemma printWithColoredLabel_colon_witness :
  let colors := fun color text => ("<" ++ color ++ ">" ++ text ++ "</>")%string in
  let inspect := fun (_ : JS.value) (_ : Printer.inspectOpts) => "x"%string in
  Stack.logError inspect colors [JS.VString "failed"] = ["<red>Error</>: failed"%string] /\
  Stack.printWithColoredLabel inspect colors "Error:" "red" [JS.VString "failed"] =
  Stack.printWithColoredLabel inspect colors "Error" "red" [JS.VString "failed"].
Proof.
  cbv zeta. split; [reflexivity|].
  apply (printWithColoredLabel_colon _ _ "Error" "red"). discriminate.
Defined.

(** ** More on the options validator *)
Section ValidatorFacts.
Import JS Opts.

Lemma get_In {A : Type} (o : object A) (prop : string) (v : A) :
  get o prop = Some v -> In (prop, v) o.
Proof.
  induction o as [|[k w] o IH]; simpl; [discriminate|].
  destruct (String.eqb k prop) eqn:E.
  - apply String.eqb_eq in E. intros [= ->]. left. congruence.
  - intros Hget. right. apply IH, Hget.
Qed.

Lemma hasOwnProperty_In {A : Type} (o : object A) (prop : string) :
  hasOwnProperty o prop = true <-> exists v, In (prop, v) o.
Proof.
  rewrite hasOwnProperty_get. split.
  - intros [v Hget]. exists v. apply get_In, Hget.
  - intros [v Hin]. induction o as [|[k w] o IH]; [destruct Hin|]. simpl.
    destruct (String.eqb k prop) eqn:E; [eauto|].
    destruct Hin as [[= -> ->] | Hin]; [|apply IH, Hin].
    rewrite String.eqb_refl in E. discriminate.
Qed.

(** Acceptance seen through the entries of the candidate alone. *)
Lemma accepted_entries (schema : object rule) (opts : object value) :
  illFormedOpts schema opts = Some false <->
  (forall prop val, In (prop, val) schema -> optional val = false ->
                    exists v, In (prop, v) opts) /\
  (forall prop optsVal, In (prop, optsVal) opts ->
                        checkProp schema prop optsVal = Pass).
Proof.
  rewrite illFormedOpts_false_run, checkMissing_Pass, checkOpts_Pass.
  unfold requiredPresent. split; intros [Hreq Hall]; (split; [|exact Hall]);
    intros prop val Hin Hopt; apply hasOwnProperty_In; eauto.
Qed.

(** X10. Acceptance does not depend on the order of the candidate's
    properties.  Two candidates with the same entries are both accepted
    or both not (the diagnostic, and a [TypeError], may differ). *)
Theorem illFormedOpts_order_independent (schema : object rule)
    (opts opts' : object value) :
  (forall entry, In entry opts <-> In entry opts') ->
  illFormedOpts schema opts = Some false <-> illFormedOpts schema opts' = Some false.
Proof.
  intros Hsame. rewrite !accepted_entries.
  split; intros [Hreq Hall]; split.
  - intros prop val Hin Hopt. destruct (Hreq prop val Hin Hopt) as [v Hv].
    exists v. apply Hsame, Hv.
  - intros prop v Hin. apply Hall, Hsame, Hin.
  - intros prop val Hin Hopt. destruct (Hreq prop val Hin Hopt) as [v Hv].
    exists v. apply Hsame, Hv.
  - intros prop v Hin. apply Hall, Hsame, Hin.
Qed.

(** X11. Properties may be left out as long as the required ones stay.  A
    candidate made of entries of an accepted candidate, and holding every
    required key, is accepted. *)
Theorem illFormedOpts_fewer_properties (schema : object rule)
    (opts opts' : object value) :
  (forall entry, In entry opts' -> In entry opts) ->
  requiredPresent schema opts' ->
  illFormedOpts schema opts = Some false ->
  illFormedOpts schema opts' = Some false.
Proof.
  intros Hsub Hreq Hacc. apply accepted_entries in Hacc as [_ Hall].
  apply accepted_entries. split.
  - intros prop val Hin Hopt. apply hasOwnProperty_In. eapply Hreq; eassumption.
  - intros prop v Hin. apply Hall, Hsub, Hin.
Qed.





End ValidatorFacts.

Lemma illFormedOpts_order_independent_witness :
  let schema := [("num"%string, Opts.RType JS.CNumber);
                 ("str"%string, Opts.RDesc (Opts.TCtor JS.CString) true None)] in
  let opts := [("num"%string, JS.VNumber 1%float); ("str"%string, JS.VString "a")] in
  Opts.illFormedOpts schema opts = Some false <->
  Opts.illFormedOpts schema (rev opts) = Some false.
Proof.
  cbv zeta. apply illFormedOpts_order_independent.
  intros entry. simpl. tauto.
Defined.

Lemma illFormedOpts_fewer_properties_witness :
  let schema := [("num"%string, Opts.RType JS.CNumber);
                 ("str"%string, Opts.RDesc (Opts.TCtor JS.CString) true None)] in
  Opts.illFormedOpts schema
    [("num"%string, JS.VNumber 1%float); ("str"%string, JS.VString "a")] = Some false /\
  Opts.illFormedOpts schema [("num"%string, JS.VNumber 1%float)] = Some false.
Proof.
  cbv zeta. split; [reflexivity|].
  apply (illFormedOpts_fewer_properties _
           [("num"%string, JS.VNumber 1%float); ("str"%string, JS.VString "a")]).
  - intros entry [<- | []]. left. reflexivity.
  - intros prop val [[= <- <-] | [[= <- <-] | []]] Hopt; [reflexivity | discriminate].
  - reflexivity.
Defined.


(** ** More on output redirection *)
Section RedirectionFacts.
Import JS Redirect.

Context {FS : Type} `{NodeFs FS}.
Variable inspect : value -> Printer.inspectOpts -> string.


Lemma redirectOutputToFile_sink (path : string) (callback : @callbackT FS)
    (w : @world FS) :
  stdout_write (redirectOutputToFile inspect path callback w).2 = stdout_write w.
Proof.
  unfold redirectOutputToFile.
  destruct (writeFileSync _ (fs w)) as [created|e]; [|reflexivity].
  simpl. destruct (callback _) as [[returnVal|e] w']; simpl; [|reflexivity].
  destruct (realpathSync _ (fs w')); reflexivity.
Qed.

(** X14. Redirections nest.  A redirection made inside the callback of
    another hands the outer stream back when it ends, so that what the
    outer callback logs afterwards goes to the outer file; the outer call
    then restores what was there before it. *)
Theorem redirectOutputToFile_nested (outerPath innerPath : string)
    (callback : @callbackT FS) (lines : list string) (w : @world FS) (created : FS) :
  let file := expandHomeDir (home w) outerPath in
  writeFileSync file (fs w) = Return created ->
  let redirected :=
    setWrite (ToStream file) (setFs (createWriteStream file created) w) in
  let inner := redirectOutputToFile inspect innerPath callback in
  let outer := fun w => ((inner w).1, consoleLog lines (inner w).2) in
  stdout_write (inner redirected).2 = ToStream file /\
  written (outer redirected).2 =
    written (inner redirected).2 ++ map (fun line => (ToStream file, line)) lines /\
  stdout_write (redirectOutputToFile inspect outerPath outer w).2 = stdout_write w.
Proof.
  intros file Hcreated redirected inner outer.
  assert (Hinner : stdout_write (inner redirected).2 = ToStream file)
    by (subst inner; rewrite redirectOutputToFile_sink; reflexivity).
  split; [exact Hinner|]. split.
  - subst outer. simpl. rewrite Hinner. reflexivity.
  - apply redirectOutputToFile_sink.
Qed.

End RedirectionFacts.

Lemma redirectOutputToFile_nested_witness :
  let w := {| Redirect.stdout_write := Redirect.Installed 0;
              Redirect.written := [];
              Redirect.fs := {| Redirect.regular := []; Redirect.directories := [] |};
              Redirect.home := "/home/me"%string |} in
  let inner := Redirect.redirectOutputToFile (fun _ _ => ""%string) "~/in.txt"
                 (fun w => (JS.Return JS.VUndefined, Redirect.consoleLog ["deep"%string] w)) in
  let outer := fun w => ((inner w).1, Redirect.consoleLog ["after"%string] (inner w).2) in
  let out := Redirect.redirectOutputToFile (fun _ _ => ""%string) "~/out.txt" outer w in
  Redirect.written out.2 =
    [(Redirect.ToStream "/home/me/in.txt", "deep"%string);
     (Redirect.ToStream "/home/me/out.txt", "Output saved to: /home/me/in.txt"%string);
     (Redirect.ToStream "/home/me/out.txt", "after"%string);
     (Redirect.Installed 0, "Output saved to: /home/me/out.txt"%string)] /\
  Redirect.stdout_write out.2 = Redirect.Installed 0.
Proof.
  cbv zeta. split; [reflexivity|].
  refine (proj2 (proj2 (redirectOutputToFile_nested (fun _ _ => ""%string)
            "~/out.txt" "~/in.txt"
            (fun w => (JS.Return JS.VUndefined, Redirect.consoleLog ["deep"%string] w))
            ["after"%string]
            {| Redirect.stdout_write := Redirect.Installed 0;
               Redirect.written := [];
               Redirect.fs := {| Redirect.regular := []; Redirect.directories := [] |};
               Redirect.home := "/home/me"%string |} _ _))).
  vm_compute. reflexivity.
Defined.

(** ** The module cache *)
Section ModuleCacheFacts.
Import JS Redirect ModuleCache.

Context {FS : Type} `{NodeFs FS}.
Variable loaded : Type.

Lemma deleteModuleCache_shrinks (paths : list string) (s : FS) :
  forall (cache : gmap string loaded) key,
    (deleteModuleCache loaded paths s cache).2 !! key = None \/
    (deleteModuleCache loaded paths s cache).2 !! key = cache !! key.
Proof.
  induction paths as [|path rest IH]; intros cache key; [right; reflexivity|].
  cbn [deleteModuleCache]. destruct (realpathSync path s) as [real|e];
    [|right; reflexivity].
  destruct (IH (delete real cache) key) as [Hnone | Hsame]; [left; exact Hnone|].
  rewrite Hsame. destruct (decide (real = key)) as [-> | Hne].
  - left. apply lookup_delete_eq.
  - right. apply lookup_delete_ne, Hne.
Qed.

Lemma lookup_after_delete (real key : string) (reals : list string)
    (cache : gmap string loaded) :
  (if decide (key ∈ reals) then None else delete real cache !! key) =
  if decide (key ∈ real :: reals) then None else cache !! key.
Proof.
  destruct (decide (key = real)) as [-> | Hne].
  - rewrite (decide_True (P := real ∈ real :: reals)) by (left).
    destruct (decide (real ∈ reals)); [reflexivity | apply lookup_delete_eq].
  - rewrite lookup_delete_ne by congruence.
    destruct (decide (key ∈ reals)) as [Hin | Hout].
    + rewrite decide_True by (right; exact Hin). reflexivity.
    + rewrite decide_False; [reflexivity|].
      intros Hin. apply list_elem_of_In in Hin as [Heq | Hin]; [congruence|].
      apply Hout, list_elem_of_In, Hin.
Qed.

Lemma deleteModuleCache_upto (before : list string) (s : FS) (rest : list string) :
  forall (reals : list string) (cache : gmap string loaded),
    Forall2 (fun path real => realpathSync path s = Return real) before reals ->
    exists cache',
      deleteModuleCache loaded (before ++ rest) s cache =
      deleteModuleCache loaded rest s cache' /\
      forall key,
        cache' !! key = if decide (key ∈ reals) then None else cache !! key.
Proof.
  induction before as [|path before IH]; intros reals cache Hall.
  - apply Forall2_nil_inv_l in Hall as ->. exists cache. split; [reflexivity|].
    intros key. rewrite decide_False; [reflexivity|].
    intros Hin. apply list_elem_of_In in Hin. exact Hin.
  - apply Forall2_cons_inv_l in Hall as (real & reals' & Hreal & Hrest & ->).
    cbn [app deleteModuleCache]. rewrite Hreal.
    destruct (IH reals' (delete real cache) Hrest) as (cache' & Hrun & Hkeys).
    exists cache'. split; [exact Hrun|]. intros key.
    rewrite Hkeys. apply lookup_after_delete.
Qed.

(** X15. [deleteModuleCache] removes the modules under the resolved paths
    and nothing else.  When every path resolves the call returns, and the
    cache then holds no entry under any of the resolved paths and every
    other entry as before.  When a path does not resolve, the call raises
    what [realpathSync] raises, with the modules of the paths before it
    already removed and those of the paths after it still cached.  No call
    adds or changes an entry. *)
Theorem deleteModuleCache_removes (s : FS) (cache : gmap string loaded) :
  (forall paths reals,
     Forall2 (fun path real => realpathSync path s = Return real) paths reals ->
     (deleteModuleCache loaded paths s cache).1 = Return tt /\
     forall key,
       (deleteModuleCache loaded paths s cache).2 !! key =
       if decide (key ∈ reals) then None else cache !! key) /\
  (forall before reals path e after,
     Forall2 (fun path real => realpathSync path s = Return real) before reals ->
     realpathSync path s = Raise e ->
     (deleteModuleCache loaded (before ++ path :: after) s cache).1 = Raise e /\
     forall key,
       (deleteModuleCache loaded (before ++ path :: after) s cache).2 !! key =
       if decide (key ∈ reals) then None else cache !! key) /\
  (forall paths key,
     (deleteModuleCache loaded paths s cache).2 !! key = None \/
     (deleteModuleCache loaded paths s cache).2 !! key = cache !! key).
Proof.
  split; [|split].
  - intros paths reals Hall.
    destruct (deleteModuleCache_upto paths s [] reals cache Hall)
      as (cache' & Hrun & Hkeys).
    rewrite app_nil_r in Hrun. rewrite Hrun. split; [reflexivity | exact Hkeys].
  - intros before reals path e after Hall Hraise.
    destruct (deleteModuleCache_upto before s (path :: after) reals cache Hall)
      as (cache' & Hrun & Hkeys).
    rewrite Hrun. cbn [deleteModuleCache]. rewrite Hraise.
    split; [reflexivity | exact Hkeys].
  - intros paths key. apply deleteModuleCache_shrinks.
Qed.

End ModuleCacheFacts.

(** ** More on the profiling tables *)
Section ProfilingFacts.
Import JS Profiling ProfilingCalls.

Variable inspect : value -> Printer.inspectOpts -> string.

Local Open Scope Z_scope.



Lemma run_counts_only (calls : list call) :
  forall st1 st2,
    _counts st1 = _counts st2 ->
    _counts (run inspect calls st1) =
    _counts (run inspect (List.filter isCounterCall calls) st2).
Proof.
  unfold run. induction calls as [|c calls IH]; intros st1 st2 Heq; [exact Heq|].
  destruct c as [l now|l now|l|l|]; cbn [List.filter isCounterCall fold_left];
    apply IH; simpl; try congruence.
  - unfold timeEnd. destruct (_times st1 !! l); exact Heq.
Qed.

Lemma run_times_only (calls : list call) :
  forall st1 st2,
    _times st1 = _times st2 ->
    _times (run inspect calls st1) =
    _times (run inspect (List.filter isTimerCall calls) st2).
Proof.
  unfold run. induction calls as [|c calls IH]; intros st1 st2 Heq; [exact Heq|].
  destruct c as [l now|l now|l|l|]; cbn [List.filter isTimerCall fold_left];
    apply IH; simpl; try congruence.
  - unfold timeEnd. rewrite Heq. destruct (_times st2 !! l); exact Heq.
  - rewrite (proj1 (logCounts_tables inspect _ _)). exact Heq.
Qed.

(** X18. Timers and counters do not touch each other.  The counter table
    after any calls is the one the counter calls alone produce, and the
    timer table the one the timer calls alone produce. *)
Theorem timers_and_counters_independent (calls : list call) (st : state) :
  _counts (run inspect calls st) =
    _counts (run inspect (List.filter isCounterCall calls) st) /\
  _times (run inspect calls st) =
    _times (run inspect (List.filter isTimerCall calls) st).
Proof. split; [apply run_counts_only | apply run_times_only]; reflexivity. Qed.



End ProfilingFacts.


(** ** More on array comparison *)
Section ArraysFacts.
Import JS Arrays.





End ArraysFacts.

(** ** More on case conversion *)
Section CaseFacts.
Import Case Dashed.

Lemma word_not_dash (c : ascii) :
  isWordChar c = true ->
  Ascii.eqb c "-" = false /\ Ascii.eqb (toUpperCase c) "-" = false.
Proof. by_cases_on_ascii c. Qed.

Lemma dashedToCamelCase_other (c : ascii) (t : string) :
  (Ascii.eqb c "-" && match t with
                      | String group1 _ => isWordChar group1
                      | EmptyString => false
                      end)%bool = false ->
  dashedToCamelCase (String c t) = String c (dashedToCamelCase t).
Proof.
  intros Hc. cbn [dashedToCamelCase]. destruct t as [|group1 u]; [reflexivity|].
  rewrite Hc. reflexivity.
Qed.

Lemma dashedToCamelCase_steps (s : string) :
  (String.length (dashedToCamelCase s) <= String.length s)%nat /\
  forall c, (String.length (dashedToCamelCase (String c s)) <= S (String.length s))%nat.
Proof.
  induction s as [|d t [IH1 IH2]]; [split; [|intros c]; simpl; lia|].
  split; [apply IH2|]. intros c.
  destruct (Ascii.eqb c "-" && isWordChar d)%bool eqn:E.
  - cbn [dashedToCamelCase]. rewrite E. cbn [String.length]. lia.
  - rewrite dashedToCamelCase_other by exact E. cbn [String.length].
    specialize (IH2 d). cbn [String.length] in IH2. lia.
Qed.

Lemma dashedToCamelCase_unchanged (s : string) :
  allChars (fun c => negb (Ascii.eqb c "-")) s = true -> dashedToCamelCase s = s.
Proof.
  induction s as [|c t IH]; [reflexivity|]. cbn [allChars]. intros Hs.
  apply andb_true_iff in Hs as [Hc Ht]. apply negb_true_iff in Hc.
  rewrite dashedToCamelCase_keep, IH by assumption. reflexivity.
Qed.

Lemma dashedToCamelCase_clears (s : string) :
  (dashesBeforeWords s = true ->
   allChars (fun c => negb (Ascii.eqb c "-")) (dashedToCamelCase s) = true) /\
  forall c,
    dashesBeforeWords (String c s) = true ->
    allChars (fun c => negb (Ascii.eqb c "-")) (dashedToCamelCase (String c s)) = true.
Proof.
  induction s as [|d t [IH1 IH2]].
  - split; [reflexivity|]. intros c. cbn [dashesBeforeWords dashedToCamelCase allChars].
    destruct (Ascii.eqb c "-"); [discriminate | reflexivity].
  - split; [apply IH2|]. intros c Hs.
    change (dashesBeforeWords (String c (String d t)))
      with ((if Ascii.eqb c "-" then isWordChar d else true)
            && dashesBeforeWords (String d t))%bool in Hs.
    apply andb_true_iff in Hs as [Hc Hrest].
    destruct (Ascii.eqb c "-") eqn:E.
    + cbn [dashedToCamelCase]. rewrite E, Hc. cbn [andb allChars].
      rewrite (proj2 (word_not_dash d Hc)). cbn [negb andb].
      apply IH1. cbn [dashesBeforeWords] in Hrest.
      apply andb_true_iff in Hrest as [_ Ht]. exact Ht.
    + rewrite dashedToCamelCase_other by (rewrite E; reflexivity).
      cbn [allChars]. rewrite E. cbn [negb andb]. apply IH2, Hrest.
Qed.

(** X21. [dashedToCamelCase] only ever removes characters.  A string with
    no dash is returned as it is, and no result is longer than its
    input. *)
Theorem dashedToCamelCase_shortens (s : string) :
  (String.length (dashedToCamelCase s) <= String.length s)%nat /\
  (allChars (fun c => negb (Ascii.eqb c "-")) s = true -> dashedToCamelCase s = s).
Proof.
  split; [apply dashedToCamelCase_steps | apply dashedToCamelCase_unchanged].
Qed.

(** X22. On a string in which every dash is followed by a letter, a digit or
    an underscore, [dashedToCamelCase] leaves no dash, so that converting
    once more changes nothing. *)
Theorem dashedToCamelCase_removes_dashes (s : string) :
  dashesBeforeWords s = true ->
  allChars (fun c => negb (Ascii.eqb c "-")) (dashedToCamelCase s) = true /\
  dashedToCamelCase (dashedToCamelCase s) = dashedToCamelCase s.
Proof.
  intros Hs. pose proof (proj1 (dashedToCamelCase_clears s) Hs) as Hclear.
  split; [exact Hclear | apply dashedToCamelCase_unchanged, Hclear].
Qed.

Lemma dashedToCamelCase_removes_dashes_witness :
  dashedToCamelCase "my-long-variable-name" = "myLongVariableName"%string /\
  allChars (fun c => negb (Ascii.eqb c "-"))
    (dashedToCamelCase "my-long-variable-name") = true /\
  dashedToCamelCase (dashedToCamelCase "my-long-variable-name") =
  dashedToCamelCase "my-long-variable-name".
Proof.
  split; [reflexivity|].
  apply (dashedToCamelCase_removes_dashes "my-long-variable-name"). reflexivity.
Defined.

End CaseFacts.

(** A dash before a dash stays: the conversion is not idempotent on every
    string. *)
Example dashedToCamelCase_double_dash :
  Case.dashedToCamelCase "a--b" = "a-B"%string /\
  Case.dashedToCamelCase "a-B" = "aB"%string.
Proof. split; reflexivity. Qed.

(** ** More on [cleanNumber] *)
Section CleanNumberFacts.
Import Numbers.

Local Open Scope Z_scope.

(** X23. [cleanNumber] flushes to zero.  A finite number of magnitude below
    [5e-14] (half a unit of the thirteenth digit) comes back as zero: the
    negative zero when the number is negative and not zero itself, the
    positive zero otherwise, also for the negative zero. *)
Theorem cleanNumber_flushes_to_zero (number : float) (neg : bool) (num den : Z) :
  decode number = DFinite neg num den ->
  2 * num * 10 ^ 13 < den ->
  cleanNumber number =
  if (neg && negb (num =? 0))%bool then neg_zero else PrimFloat.zero.
Proof.
  intros Hdec Hsmall.
  destruct (decode_finite number neg num den Hdec) as [Hnum Hden].
  unfold cleanNumber, toFixed13. rewrite Hdec.
  replace (num <? 10 ^ 21 * den) with true by (symmetry; apply Z.ltb_lt; nia).
  unfold Number. rewrite readDecimal_toFixedDigits by assumption.
  replace (nearestScaled 13 num den) with 0.
  - reflexivity.
  - unfold nearestScaled. change (Z.of_nat 13) with 13.
    symmetry. apply Z.div_small. nia.
Qed.

Lemma cleanNumber_flushes_to_zero_witness :
  decode (-1e-20)%float =
    DFinite true 6646139978924579 (2 ^ 119) /\
  cleanNumber (-1e-20)%float = neg_zero.
Proof.
  split; [vm_compute; reflexivity|].
  apply (cleanNumber_flushes_to_zero (-1e-20)%float true 6646139978924579 (2 ^ 119));
    vm_compute; reflexivity.
Defined.

End CleanNumberFacts.
